(** * Honeycomb hexes: a shallow embedding of [src/src/hex/index.js]

    The module [src/src/hex/index.js] defines [createFactory] (exported as
    [extendHex]), which builds a prototype object and returns the bound
    constructor [Hex].  The development below models

    - JavaScript numbers ([num]): finite doubles by their exact rational
      value, together with the negative zero, NaN and the two infinities,
      with binary64 rounding of arithmetic results;
    - JavaScript values and a heap of objects ([value], [obj], [state]), with
      prototype links, own properties and the object kinds that the
      [axis.js] type tests distinguish;
    - [Object.assign], [Object.create] and the three [axis.js] predicates
      [isObject], [isArray], [isNumber];
    - [createFactory] and [Hex] themselves, in a state/error monad;
    - the helpers and prototype methods that [index.js] imports from
      modules that are not part of the sources ([../utils],
      [./statics], [./prototype], [../point], [./constants]), modelled
      from the specification. *)

From Stdlib Require Import QArith Qround Qabs Lqa.
From stdpp Require Import base gmap strings list pretty.

(* ------------------------------------------------------------------ *)
(** ** JavaScript numbers *)

Module JsNum.

Local Open Scope Q_scope.

(** A double: a finite value (its exact rational value; [NFin q] with
    [q == 0] is the positive zero), the negative zero, NaN, or an
    infinity ([NInf true] is [-Infinity]).  Finite results of arithmetic
    are rounded to binary64 ([round64]). *)
Inductive num :=
| NFin (q : Q)
| NNegZero
| NNaN
| NInf (neg : bool).

(** Strict order on rationals, as a boolean. *)
Definition Qlt_bool (p q : Q) : bool := negb (Qle_bool q p).



(** The value of a finite number or zero. *)
Definition fin_val (n : num) : option Q :=
  match n with
  | NFin q => Some q
  | NNegZero => Some 0
  | _ => None
  end.

(** [2 ^ e] for an integer [e]. *)
Definition pow2 (e : Z) : Q :=
  if Z.leb 0 e then inject_Z (2 ^ e) else 1 # Z.to_pos (2 ^ (- e)).

(** The exponent [e] of a positive rational [a]: [2 ^ e <= a < 2 ^ (e+1)]. *)
Definition qexp (a : Q) : Z :=
  let e0 := (Z.log2 (Qnum a) - Z.log2 (Zpos (Qden a)))%Z in
  if Qle_bool (pow2 e0) a then e0 else (e0 - 1)%Z.

(** Rounding a non-negative rational to an integer, ties to even. *)
Definition rne (m : Q) : Z :=
  let f := Qfloor m in
  let d := m - inject_Z f in
  if Qlt_bool d (1 # 2) then f
  else if Qlt_bool (1 # 2) d then (f + 1)%Z
  else if Z.even f then f else (f + 1)%Z.

(** Rounding a positive rational to binary64 (53-bit significands,
    subnormals down to [2 ^ -1074]); [None] is an overflow. *)
Definition round64_pos (a : Q) : option Q :=
  let qe := Z.max (qexp a - 52) (-1074) in
  let r := inject_Z (rne (a / pow2 qe)) * pow2 qe in
  if Qle_bool (pow2 1024) r then None else Some r.

(** The double nearest to a non-zero rational [q], ties to even: an
    overflow is an infinity, an underflow a zero, both with the sign of
    [q]. *)
Definition round64 (q : Q) : num :=
  let q := Qred q in
  let neg := Qlt_bool q 0 in
  match round64_pos (Qabs q) with
  | None => NInf neg
  | Some r =>
      if Qeq_bool r 0 then (if neg then NNegZero else NFin 0)
      else NFin (Qred (if neg then - r else r))
  end.

(** A finite result: an exact zero carries the sign [neg_zero], any other
    value is rounded to a double. *)
Definition mk_fin (neg_zero : bool) (q : Q) : num :=
  if Qeq_bool q 0 then (if neg_zero then NNegZero else NFin 0)
  else round64 q.

(** Unary minus. *)
Definition neg (n : num) : num :=
  match n with
  | NFin q => if Qeq_bool q 0 then NNegZero else NFin (- q)
  | NNegZero => NFin 0
  | NNaN => NNaN
  | NInf b => NInf (negb b)
  end.

(** [a + b]; a zero sum is [+0] unless both operands are [-0]. *)
Definition add (a b : num) : num :=
  match a, b with
  | NNaN, _ | _, NNaN => NNaN
  | NInf s, NInf t => if Bool.eqb s t then NInf s else NNaN
  | NInf s, _ | _, NInf s => NInf s
  | NNegZero, NNegZero => NNegZero
  | NNegZero, y => y
  | x, NNegZero => x
  | NFin p, NFin q => mk_fin false (p + q)
  end.

(** [a - b] is [a + (-b)]. *)
Definition sub (a b : num) : num := add a (neg b).


(** [Math.round]: [floor (x + 1/2)], with [-0] for [x] in [[-1/2, 0)]. *)
Definition round (n : num) : num :=
  match n with
  | NFin q =>
      let z := Qfloor (q + (1 # 2)) in
      if Z.eqb z 0 then (if Qlt_bool q 0 then NNegZero else NFin 0)
      else NFin (inject_Z z)
  | m => m
  end.

(** [Math.abs]. *)
Definition abs (n : num) : num :=
  match n with
  | NFin q => NFin (Qabs q)
  | NNegZero => NFin 0
  | NNaN => NNaN
  | NInf _ => NInf false
  end.

(** [a > b]; every comparison with NaN is false. *)
Definition gt (a b : num) : bool :=
  match a, b with
  | NNaN, _ | _, NNaN => false
  | NInf false, NInf false => false
  | NInf false, _ => true
  | _, NInf false => false
  | NInf true, _ => false
  | _, NInf true => true
  | x, y =>
      match fin_val x, fin_val y with
      | Some p, Some q => Qlt_bool q p
      | _, _ => false
      end
  end.

(** SameValueZero: the equality of [chai]'s deep equality on numbers
    ([NaN] equals [NaN], [-0] equals [+0]). *)
Definition same (a b : num) : bool :=
  match a, b with
  | NNaN, NNaN => true
  | NInf s, NInf t => Bool.eqb s t
  | x, y =>
      match fin_val x, fin_val y with
      | Some p, Some q => Qeq_bool p q
      | _, _ => false
      end
  end.


(** A finite number (not NaN, not an infinity). *)
Definition is_finite (n : num) : bool :=
  match n with
  | NFin _ | NNegZero => true
  | _ => false
  end.

End JsNum.

Import JsNum.

(* ------------------------------------------------------------------ *)
(** ** JavaScript values, objects and the heap *)

Module Js.

(** Heap locations. *)
Definition loc := nat.

(** Function objects: a method of a hex prototype built by
    [createFactory] (its closure sees the [Hex] bound to the prototype at
    [fp]), a function of [./prototype] shared by every factory, or any
    other function, whose behaviour is not modelled. *)
Inductive fn :=
| FMethod (name : string) (fp : loc)
| FShared (name : string)
| FOther.

(** What [Object.prototype.toString] reports of an object, plus the
    primitive held by a wrapper object ([new Number(n)], ...). *)
Inductive okind :=
| KPlain
| KArray
| KFunction (f : fn)
| KBoxNum (n : num)
| KBoxStr (s : string)
| KBoxBool (b : bool).

Inductive value :=
| VUndef
| VNull
| VBool (b : bool)
| VNum (n : num)
| VStr (s : string)
| VRef (l : loc).

(** An object: its kind, its prototype link ([None] stands for
    [Object.prototype] and the other built-in prototypes, which hold no
    property the code reads) and its own properties.  Every property is a
    writable, enumerable data property; the order of the keys is not
    modelled. *)
Record obj := mkobj {
  o_kind : okind;
  o_proto : option loc;
  o_props : gmap string value
}.

Definition plain (ps : gmap string value) : obj := mkobj KPlain None ps.

(** The heap, with the next fresh location. *)
Record state := mkst {
  next : loc;
  heap : gmap loc obj
}.

(** Thrown exceptions.  [RangeError] is the exhausted call stack;
    [NotModelled] marks situations outside the model (a dangling
    location, a prototype chain longer than [chain_fuel], a call of a
    function whose code is not modelled). *)
Inductive err := TypeError | RangeError | NotModelled.

(** The state and exception monad. *)
Definition M (A : Type) : Type := state -> err + (A * state).

Definition ret {A} (a : A) : M A := fun s => inr (a, s).

Definition bind {A B} (m : M A) (k : A -> M B) : M B :=
  fun s => match m s with
           | inl e => inl e
           | inr (a, s') => k a s'
           end.

Notation "x <- m ;; k" := (bind m (fun x => k))
  (at level 100, m at next level, right associativity).

Definition throw {A} (e : err) : M A := fun _ => inl e.

Definition get_state : M state := fun s => inr (s, s).

Definition load (l : loc) : M obj :=
  fun s => match heap s !! l with
           | Some o => inr (o, s)
           | None => inl NotModelled
           end.

Definition store (l : loc) (o : obj) : M unit :=
  fun s => inr (tt, mkst (next s) (<[l := o]> (heap s))).

Definition alloc (o : obj) : M loc :=
  fun s => inr (next s, mkst (S (next s)) (<[next s := o]> (heap s))).

(** [[Get]]: own property first, then along the prototype chain. *)
Fixpoint get_from (fuel : nat) (h : gmap loc obj) (l : loc) (k : string)
  : option value :=
  match fuel with
  | O => None
  | S f =>
      match h !! l with
      | None => None
      | Some o =>
          match o_props o !! k with
          | Some v => Some v
          | None =>
              match o_proto o with
              | None => Some VUndef
              | Some p => get_from f h p k
              end
          end
      end
  end.

Definition chain_fuel : nat := 64.

Definition get (l : loc) (k : string) : M value :=
  fun s => match get_from chain_fuel (heap s) l k with
           | Some v => inr (v, s)
           | None => inl NotModelled
           end.

(** The class reported by [Object.prototype.toString.call(v)]. *)
Inductive tag :=
| TUndefined | TNull | TBoolean | TNumber | TString
| TObject | TArray | TFunction.

Definition kind_tag (k : okind) : tag :=
  match k with
  | KPlain => TObject
  | KArray => TArray
  | KFunction _ => TFunction
  | KBoxNum _ => TNumber
  | KBoxStr _ => TString
  | KBoxBool _ => TBoolean
  end.

(** A dangling location never occurs in a well-formed heap; it is given
    the tag of a plain object. *)
Definition type_tag (h : gmap loc obj) (v : value) : tag :=
  match v with
  | VUndef => TUndefined
  | VNull => TNull
  | VBool _ => TBoolean
  | VNum _ => TNumber
  | VStr _ => TString
  | VRef l =>
      match h !! l with
      | Some o => kind_tag (o_kind o)
      | None => TObject
      end
  end.

(** [axis.js]: [isObject], [isArray], [isNumber] compare that tag. *)
Definition isObject (h : gmap loc obj) (v : value) : bool :=
  match type_tag h v with TObject => true | _ => false end.

Definition isArray (h : gmap loc obj) (v : value) : bool :=
  match type_tag h v with TArray => true | _ => false end.

Definition isNumber (h : gmap loc obj) (v : value) : bool :=
  match type_tag h v with TNumber => true | _ => false end.

(** The own enumerable index properties of a string. *)
Fixpoint str_props (i : nat) (s : string) : gmap string value :=
  match s with
  | EmptyString => ∅
  | String c s' => <[pretty i := VStr (String c EmptyString)]> (str_props (S i) s')
  end.

(** The own enumerable properties of [ToObject(v)], as read by
    [Object.assign] from a source; [undefined] and [null] sources are
    skipped. *)
Definition own_enum (h : gmap loc obj) (v : value) : gmap string value :=
  match v with
  | VStr s => str_props 0 s
  | VRef l =>
      match h !! l with
      | Some o => o_props o
      | None => ∅
      end
  | _ => ∅
  end.

(** [ToObject] of the target of [Object.assign]: a primitive gets a fresh
    wrapper object, [undefined] and [null] throw a [TypeError]. *)
Definition to_object (v : value) : M loc :=
  match v with
  | VUndef | VNull => throw TypeError
  | VRef l => ret l
  | VNum n => alloc (mkobj (KBoxNum n) None ∅)
  | VBool b => alloc (mkobj (KBoxBool b) None ∅)
  | VStr s => alloc (mkobj (KBoxStr s) None (str_props 0 s))
  end.

(** [[Set]] of every property of [ps] on the object at [l]: the keys of
    one source are distinct, so the result is the left-biased union.  A
    key [__proto__] is stored as an ordinary property; in JavaScript its
    [[Set]] reaches the inherited setter of [Object.prototype] instead
    (it changes the prototype and adds no property), so results about
    copies of objects with such a key assume there is none. *)
Definition assign_props (l : loc) (ps : gmap string value) : M unit :=
  o <- load l ;;
  store l (mkobj (o_kind o) (o_proto o) (ps ∪ o_props o)).

Fixpoint assign_sources (l : loc) (srcs : list value) : M unit :=
  match srcs with
  | [] => ret tt
  | v :: r =>
      s <- get_state ;;
      _ <- assign_props l (own_enum (heap s) v) ;;
      assign_sources l r
  end.

(** [Object.assign(target, ...srcs)]. *)
Definition object_assign (target : value) (srcs : list value) : M value :=
  l <- to_object target ;;
  _ <- assign_sources l srcs ;;
  ret (VRef l).

End Js.

Import Js.

(* ------------------------------------------------------------------ *)
(** ** The hex factory: [src/src/hex/index.js] *)

Module Honeycomb.

(** Modelled from the spec: [unsignNegativeZero] of [../utils] (missing):
    a [-0] becomes [0]; every other value, numeric or not, is returned
    unchanged (the constructor applies it before it tests which of [x],
    [y] are numbers). *)
Definition unsignNegativeZero (v : value) : value :=
  match v with
  | VNum NNegZero => VNum (NFin 0)
  | v => v
  end.

(** Modelled from the spec: [thirdCoordinateFactory] of [./statics]
    (missing): [z = -(x + y)], negative-zero normalised.  Attached to
    [Hex] as the static [Hex.thirdCoordinate] (lines 8-10, 85). *)
Definition thirdCoordinate (x y : num) : num :=
  match unsignNegativeZero (VNum (neg (add x y))) with
  | VNum n => n
  | _ => NNaN
  end.

(** Modelled from the spec: [ORIENTATIONS.POINTY] of [./constants]
    (missing). *)
Definition ORIENTATIONS_POINTY : value := VStr "POINTY".

(** Lines 156-165: the [switch] on how many of [x], [y] are numbers. *)
Definition infer (h : gmap loc obj) (x y : value) : value * value :=
  match length (List.filter (isNumber h) [x; y]) with
  | 2 => (x, y)
  | 1 =>
      let x := if isNumber h x then x else y in
      let y := if isNumber h y then y else x in
      (x, y)
  | _ => (VNum (NFin 0), VNum (NFin 0))
  end.

(** Lines 154-173, after the input has been taken apart: negative-zero
    normalisation, the inference, and
    [Object.assign(Object.create(finalPrototype), this,
                   Object.assign(customProps, { x, y }))]. *)
Definition hex_finish (fp : loc) (this x y customProps : value) : M value :=
  let x := unsignNegativeZero x in
  let y := unsignNegativeZero y in
  s <- get_state ;;
  let xy := infer (heap s) x y in
  r <- alloc (mkobj KPlain (Some fp) ∅) ;;
  lit <- alloc (plain (<["y" := snd xy]> {["x" := fst xy]})) ;;
  c <- object_assign customProps [VRef lit] ;;
  object_assign (VRef r) [this; c].

(** [Hex(xOrProps, y, customProps = {})] of lines 138-174, bound to the
    prototype at [fp].  [fuel] bounds the depth of the recursion through
    object arguments (the call stack). *)
Fixpoint hex_rec (fuel : nat) (fp : loc) (this xOrProps y customProps : value)
  : M value :=
  match fuel with
  | O => throw RangeError
  | S fuel' =>
      customProps <-
        (match customProps with
         | VUndef => l <- alloc (plain ∅) ;; ret (VRef l)
         | v => ret v
         end) ;;
      s <- get_state ;;
      if isObject (heap s) xOrProps then
        match xOrProps with
        | VRef l =>
            x <- get l "x" ;;
            y <- get l "y" ;;
            hex_rec fuel' fp VUndef x y xOrProps
        | _ => throw NotModelled
        end
      else if isArray (heap s) xOrProps then
        match xOrProps with
        | VRef l =>
            x <- get l "0" ;;
            y <- get l "1" ;;
            c <- alloc (plain ∅) ;;
            hex_finish fp this x y (VRef c)
        | _ => throw NotModelled
        end
      else hex_finish fp this xOrProps y customProps
  end.

Definition max_depth : nat := 1000.

(** The bound constructor [Hex], called as a plain function ([this] is
    [undefined] in the strict code of an ES module). *)
Definition Hex (fp : loc) (xOrProps y customProps : value) : M value :=
  hex_rec max_depth fp VUndef xOrProps y customProps.

(** The methods of the default prototype built by a factory of
    [./prototype] from the bound [Hex] or from [Point] (lines 61, 63, 69,
    73-76). *)
Definition factory_names : list string :=
  ["add"; "corners"; "lerp"; "round"; "set"; "subtract"; "toPoint"].

(** The methods of the default prototype that are functions of
    [./prototype] taken as they are (lines 62, 64-68, 70-72, 77-78). *)
Definition shared_names : list string :=
  ["coordinates"; "distance"; "equals"; "height"; "isFlat"; "isPointy";
   "nudge"; "oppositeCornerDistance"; "oppositeSideDistance"; "toString";
   "width"].

(** Modelled from the spec: the calls [methods.addFactory({ Hex })] and
    the like of [./prototype] (missing), each returning a new function
    that closes over the [Hex] of this factory. *)
Fixpoint alloc_methods (dp : loc) (ns : list string) : M (gmap string value) :=
  match ns with
  | [] => ret ∅
  | n :: r =>
      f <- alloc (mkobj (KFunction (FMethod n dp)) None ∅) ;;
      m <- alloc_methods dp r ;;
      ret (<[n := VRef f]> m)
  end.

(** The reads [methods.coordinates] and the like, on the namespace object
    [methods] of [./prototype] at [mods]. *)
Fixpoint read_methods (mods : loc) (ns : list string) : M (gmap string value) :=
  match ns with
  | [] => ret ∅
  | n :: r =>
      f <- get mods n ;;
      m <- read_methods mods r ;;
      ret (<[n := f]> m)
  end.

(** The data properties of the default prototype (lines 53-58). *)
Definition default_props : gmap string value :=
  <["__isHoneycombHex" := VBool true]>
  (<["orientation" := ORIENTATIONS_POINTY]>
  (<["origin" := VNum (NFin 0)]>
  {["size" := VNum (NFin 1)]})).

(** [createFactory(prototype = {})] of lines 50-177, with the [Point]
    constructor of [../point] and the location [mods] of the namespace
    object [methods] of [./prototype] as parameters.  The result is the location
    of [finalPrototype]: the returned [Hex] is [Hex] at that location.
    The objects of the default prototype are allocated first and filled
    afterwards; the order of allocations is not observable.  The statics
    copied onto [Hex] (line 85) are not modelled. *)
Definition createFactory (Point : value -> M value) (mods : loc) (prototype : value)
  : M loc :=
  prototype <-
    (match prototype with
     | VUndef => l <- alloc (plain ∅) ;; ret (VRef l)
     | v => ret v
     end) ;;
  dp <- alloc (plain ∅) ;;
  ms <- alloc_methods dp factory_names ;;
  sh <- read_methods mods shared_names ;;
  _ <- store dp (plain (default_props ∪ ms ∪ sh)) ;;
  _ <- object_assign (VRef dp) [prototype] ;;
  o <- get dp "origin" ;;
  p <- Point o ;;
  _ <- assign_props dp {["origin" := p]} ;;
  ret dp.

(** Modelled from the spec: [Point] of [../point] (missing), used for the
    origin: a planar point object with [x] and [y]; an object is read
    through its [x] and [y], a lone value [v] is read as the point
    [(v, v)]. *)
Definition Point (v : value) : M value :=
  s <- get_state ;;
  if isObject (heap s) v then
    match v with
    | VRef l =>
        x <- get l "x" ;;
        y <- get l "y" ;;
        p <- alloc (plain (<["y" := y]> {["x" := x]})) ;;
        ret (VRef p)
    | _ => throw NotModelled
    end
  else
    p <- alloc (plain (<["y" := v]> {["x" := v]})) ;;
    ret (VRef p).

(** The empty heap. *)
Definition init : state := mkst 0 ∅.

(** Loading [./prototype]: one function object for each shared method. *)
Fixpoint alloc_shared (ns : list string) : M (gmap string value) :=
  match ns with
  | [] => ret ∅
  | n :: r =>
      f <- alloc (mkobj (KFunction (FShared n)) None ∅) ;;
      m <- alloc_shared r ;;
      ret (<[n := VRef f]> m)
  end.

(** Loading [./prototype]: its shared functions, then its namespace object
    [methods] (the [import * as methods] of [index.js]) holding them.  Its
    factories, such as [addFactory], are not objects of the model: their
    calls are [alloc_methods]. *)
Definition load_prototype : M loc :=
  ms <- alloc_shared shared_names ;;
  alloc (plain ms).

(** Running a computation: its result and final state, if it returns. *)
Definition run {A} (m : M A) (s : state) : option (A * state) :=
  match m s with
  | inr r => Some r
  | inl _ => None
  end.

(** The own property [k] of the object [v] refers to. *)
Definition own (s : state) (v : value) (k : string) : option value :=
  match v with
  | VRef l => match heap s !! l with
              | Some o => o_props o !! k
              | None => None
              end
  | _ => None
  end.

(** Reading [v.k] in state [s] ([None]: not an object, or not modelled). *)
Definition prop (s : state) (v : value) (k : string) : option value :=
  match v with
  | VRef l => get_from chain_fuel (heap s) l k
  | _ => None
  end.


(** ** The prototype methods ([./prototype], missing from the sources) *)

Module Prototype.

(** Modelled from the spec: [ToNumber] as the methods of [./prototype]
    (missing) apply it when they compute with a coordinate: a number or a
    [Number] wrapper gives its value, [undefined] gives NaN, [null] and
    booleans give [0] and [1]; strings and other objects are not
    modelled. *)
Definition to_num (h : gmap loc obj) (v : value) : option num :=
  match v with
  | VNum n => Some n
  | VUndef => Some NNaN
  | VNull => Some (NFin 0)
  | VBool b => Some (NFin (if b then 1 else 0)%Q)
  | VStr _ => None
  | VRef l =>
      match h !! l with
      | Some o =>
          match o_kind o with
          | KBoxNum n => Some n
          | KBoxBool b => Some (NFin (if b then 1 else 0)%Q)
          | _ => None
          end
      | None => None
      end
  end.

Definition num_of (v : value) : M num :=
  s <- get_state ;;
  match to_num (heap s) v with
  | Some n => ret n
  | None => throw NotModelled
  end.

(** Modelled from the spec: reading a coordinate [this.k] as a number. *)
Definition coord (this : value) (k : string) : M num :=
  match this with
  | VRef l => v <- get l k ;; num_of v
  | _ => throw NotModelled
  end.

(** Modelled from the spec: [coordinates()] of [./prototype] (missing)
    returns a fresh snapshot [{x, y, z}] of the hex. *)
Definition coordinates (this : value) : M value :=
  match this with
  | VRef l =>
      x <- get l "x" ;;
      y <- get l "y" ;;
      z <- get l "z" ;;
      c <- alloc (plain (<["z" := z]> (<["y" := y]> {["x" := x]}))) ;;
      ret (VRef c)
  | _ => throw NotModelled
  end.

(** Modelled from the spec: the methods of [./prototype] (missing) that
    return a new hex build it with the bound [Hex] of the factory, from
    the new [x] and [y] ([Hex] derives [z] itself) and a copy of the own
    properties of the receiver as custom properties:
    [Hex(x, y, Object.assign({}, this))]. *)
Definition derive (fp : loc) (this : value) (x y : num) : M value :=
  s <- get_state ;;
  c <- alloc (plain (own_enum (heap s) this)) ;;
  Hex fp (VNum x) (VNum y) (VRef c).

(** Modelled from the spec: [add(other)] of [./prototype] (missing):
    component-wise addition. *)
Definition add (fp : loc) (this other : value) : M value :=
  x1 <- coord this "x" ;; y1 <- coord this "y" ;;
  x2 <- coord other "x" ;; y2 <- coord other "y" ;;
  derive fp this (JsNum.add x1 x2) (JsNum.add y1 y2).

(** Modelled from the spec: [subtract(other)] of [./prototype]
    (missing): component-wise subtraction. *)
Definition subtract (fp : loc) (this other : value) : M value :=
  x1 <- coord this "x" ;; y1 <- coord this "y" ;;
  x2 <- coord other "x" ;; y2 <- coord other "y" ;;
  derive fp this (sub x1 x2) (sub y1 y2).


(** Cube coordinates. *)
Record cube := mkcube { cx : num; cy : num; cz : num }.

(** Modelled from the spec: cube rounding, as [round()] of
    [./prototype] (missing) performs it: each coordinate rounded with
    [Math.round], and the one with the largest rounding delta recomputed
    as the negative sum of the other two rounded ones. *)
Definition cube_round (c : cube) : cube :=
  let rx := JsNum.round (cx c) in
  let ry := JsNum.round (cy c) in
  let rz := JsNum.round (cz c) in
  let dx := abs (sub rx (cx c)) in
  let dy := abs (sub ry (cy c)) in
  let dz := abs (sub rz (cz c)) in
  if gt dx dy && gt dx dz then mkcube (sub (neg ry) rz) ry rz
  else if gt dy dz then mkcube rx (sub (neg rx) rz) rz
  else mkcube rx ry (sub (neg rx) ry).

(** Modelled from the spec: [round()] of [./prototype] (missing). *)
Definition round (fp : loc) (this : value) : M value :=
  x <- coord this "x" ;; y <- coord this "y" ;; z <- coord this "z" ;;
  let r := cube_round (mkcube x y z) in
  derive fp this (cx r) (cy r).

End Prototype.

End Honeycomb.

Import Honeycomb.

(* ------------------------------------------------------------------ *)
(** ** Concrete runs *)

Module Examples.

(** The value and state a computation returns ([undefined] and the
    initial state if it throws). *)
Definition result (m : M value) (s : state) : value * state :=
  match m s with
  | inr r => r
  | inl _ => (VUndef, s)
  end.

Definition loc_of (v : value) : loc :=
  match v with VRef l => l | _ => 0%nat end.

(** The heap once [./prototype] is loaded, and the location of its
    namespace object [methods]. *)
Definition loaded : option (loc * state) := run load_prototype init.

Definition methods0 : loc := match loaded with Some (l, _) => l | None => 0%nat end.

Definition st_mods : state := match loaded with Some (_, s) => s | None => init end.

(** [extendHex()]: the default factory. *)
Definition factory0 : option (loc * state) :=
  run (createFactory Point methods0 VUndef) st_mods.

Definition fp0 : loc := match factory0 with Some (l, _) => l | None => 0%nat end.

Definition st0 : state := match factory0 with Some (_, s) => s | None => init end.

(** The object [{x: 1, y: 2, name: 'a'}], allocated at [arg0]. *)
Definition arg0 : loc := next st0.

Definition arg0_obj : obj :=
  plain (<["name" := VStr "a"]> (<["y" := VNum (NFin 2)]> {["x" := VNum (NFin 1)]})).

Definition st1 : state := mkst (S arg0) (<[arg0 := arg0_obj]> (heap st0)).

(** [h1 = Hex({x: 1, y: 2, name: 'a'})]: a hex with a custom property. *)
Definition run1 : value * state := result (Hex fp0 (VRef arg0) VUndef VUndef) st1.

Definition h1 : loc := loc_of (fst run1).

Definition s1 : state := snd run1.

(** [Hex] applied to a fresh plain object with the properties [ps]. *)
Definition hex_of_obj (ps : gmap string value) : value * state :=
  result (Hex fp0 (VRef arg0) VUndef VUndef)
    (mkst (S arg0) (<[arg0 := plain ps]> (heap st0))).

(** [Hex(x, y)] in the default factory. *)
Definition hex_of_nums (x y : value) : value * state :=
  result (Hex fp0 x y VUndef) st0.

(** The property [k] of the hex a run returned. *)
Definition prop_of (r : value * state) (k : string) : option value :=
  prop (snd r) (fst r) k.

(** Two hexes [Hex(xa, ya)] and [Hex(xb, yb)], made one after the other in
    the default factory. *)
Definition two_hexes (xa ya xb yb : value) : value * value * state :=
  let (a, s1) := result (Hex fp0 xa ya VUndef) st0 in
  let (b, s2) := result (Hex fp0 xb yb VUndef) s1 in
  (a, b, s2).

(** [Hex(1, 2)] and [Hex(3, 4)]. *)
Definition pair12 : value * value * state :=
  two_hexes (VNum (NFin 1)) (VNum (NFin 2)) (VNum (NFin 3)) (VNum (NFin 4)).

Definition ha : loc := loc_of (fst (fst pair12)).

Definition hb : loc := loc_of (snd (fst pair12)).

Definition st2 : state := snd pair12.




(** The array [[1, 2]], allocated at [arg0]. *)
Definition arr_obj : obj :=
  mkobj KArray None (<["1" := VNum (NFin 2)]> {["0" := VNum (NFin 1)]}).

Definition st_arr : state := mkst (S arg0) (<[arg0 := arr_obj]> (heap st0)).

(** An object [o] with [o.x = o] and no [y], allocated at [arg0]. *)
Definition cyc_obj : obj := plain {["x" := VRef arg0]}.

Definition st_cyc : state := mkst (S arg0) (<[arg0 := cyc_obj]> (heap st0)).

(** [{x: {x: 1, y: 2}, y: 5, name: 'a'}]: the outer object at [arg0], the
    inner one at [S arg0]. *)
Definition outer_obj : obj :=
  plain (<["name" := VStr "a"]> (<["y" := VNum (NFin 5)]> {["x" := VRef (S arg0)]})).

Definition inner_obj : obj :=
  plain (<["y" := VNum (NFin 2)]> {["x" := VNum (NFin 1)]}).

Definition st_nest : state :=
  mkst (S (S arg0)) (<[S arg0 := inner_obj]> (<[arg0 := outer_obj]> (heap st0))).

(** [Hex({x: {x: 1, y: 2}, y: 5, name: 'a'})]. *)
Definition run_nest : value * state := result (Hex fp0 (VRef arg0) VUndef VUndef) st_nest.

(** A receiver [{name: 't', x: 9}] at [arg0] and a custom-properties
    object [{name: 'c'}] at [S arg0]. *)
Definition this_obj : obj :=
  plain (<["x" := VNum (NFin 9)]> {["name" := VStr "t"]}).

Definition cp_obj : obj := plain {["name" := VStr "c"]}.

Definition st_this : state :=
  mkst (S (S arg0)) (<[S arg0 := cp_obj]> (<[arg0 := this_obj]> (heap st0))).







End Examples.

(* ------------------------------------------------------------------ *)
(** ** Heap invariants *)

Module HeapFacts.

(** Well-formed heap: locations below [next], prototype links allocated. *)
Definition wf (s : state) : Prop :=
  forall l o, heap s !! l = Some o ->
    l < next s /\ forall p, o_proto o = Some p -> is_Some (heap s !! p).

(** [s'] extends [s]: no object disappears or changes kind or prototype. *)
Definition extends (s s' : state) : Prop :=
  next s <= next s' /\
  forall l o, heap s !! l = Some o ->
    exists o', heap s' !! l = Some o' /\ o_kind o' = o_kind o /\ o_proto o' = o_proto o.

Lemma extends_refl s : extends s s.
Proof. split; [lia|]. intros l o H. exists o. auto. Qed.

Lemma extends_trans s1 s2 s3 : extends s1 s2 -> extends s2 s3 -> extends s1 s3.
Proof.
  intros [H1 E1] [H2 E2]. split; [lia|]. intros l o H.
  destruct (E1 _ _ H) as (o2 & L2 & K2 & P2).
  destruct (E2 _ _ L2) as (o3 & L3 & K3 & P3).
  exists o3. split; [done|]. split; congruence.
Qed.

Lemma extends_dom s s' l : extends s s' -> is_Some (heap s !! l) -> is_Some (heap s' !! l).
Proof.
  intros [_ E] [o H]. destruct (E _ _ H) as (o' & L & _). by exists o'.
Qed.

Lemma extends_tag s s' v :
  extends s s' -> type_tag (heap s) v <> TObject -> type_tag (heap s') v = type_tag (heap s) v.
Proof.
  intros [_ E] Ht. destruct v as [| | | | |l]; simpl in *; try done.
  destruct (heap s !! l) as [o|] eqn:L; [|done].
  destruct (E _ _ L) as (o' & L' & K & _). by rewrite L', K.
Qed.

Lemma extends_isNumber s s' v :
  extends s s' -> isNumber (heap s) v = true -> isNumber (heap s') v = true.
Proof.
  unfold isNumber. intros He H.
  destruct (type_tag (heap s) v) eqn:T; try discriminate.
  rewrite (extends_tag s s' v He); [by rewrite T|by rewrite T].
Qed.

(** The invariant of a run that creates hexes with the prototype at [fp]. *)
Definition inv (fp : loc) (s : state) : Prop := wf s /\ is_Some (heap s !! fp).

(** The state transformer [m] keeps the invariant and extends the heap. *)
Definition mono (fp : loc) {A} (m : M A) : Prop :=
  forall s a s', inv fp s -> m s = inr (a, s') -> inv fp s' /\ extends s s'.

Lemma mono_ret fp {A} (a : A) : mono fp (ret a).
Proof. intros s b s' W H. injection H as <- <-. split; [done|apply extends_refl]. Qed.

Lemma mono_bind fp {A B} (m : M A) (k : A -> M B) :
  mono fp m -> (forall a, mono fp (k a)) -> mono fp (bind m k).
Proof.
  intros Hm Hk s b s' W H. unfold bind in H.
  destruct (m s) as [e|[a s1]] eqn:E; [discriminate|].
  destruct (Hm _ _ _ W E) as [W1 X1].
  destruct (Hk a _ _ _ W1 H) as [W2 X2].
  split; [done|]. by eapply extends_trans.
Qed.

Lemma mono_throw fp {A} e : mono fp (@throw A e).
Proof. intros s a s' _ H. discriminate. Qed.

Lemma mono_get_state fp : mono fp get_state.
Proof. intros s a s' W H. injection H as <- <-. split; [done|apply extends_refl]. Qed.

Lemma mono_get fp l k : mono fp (get l k).
Proof.
  intros s a s' W H. unfold get in H.
  destruct (get_from _ _ _ _); [|discriminate].
  injection H as <- <-. split; [done|apply extends_refl].
Qed.

Lemma mono_load fp l : mono fp (load l).
Proof.
  intros s a s' W H. unfold load in H.
  destruct (heap s !! l); [|discriminate].
  injection H as <- <-. split; [done|apply extends_refl].
Qed.

Lemma alloc_inv o s a s' :
  alloc o s = inr (a, s') -> a = next s /\ s' = mkst (S (next s)) (<[next s := o]> (heap s)).
Proof. intros H. by injection H as <- <-. Qed.

(** Allocation of an object whose prototype is [None] or [fp]. *)
Lemma mono_alloc fp k pr ps :
  (pr = None \/ pr = Some fp) -> mono fp (alloc (mkobj k pr ps)).
Proof.
  intros Hpr s a s' [W F] H. apply alloc_inv in H as [-> ->].
  assert (Fresh : heap s !! next s = None).
  { destruct (heap s !! next s) as [o|] eqn:L; [|done].
    destruct (W _ _ L) as [Hl _]. lia. }
  assert (Keep : forall l o, heap s !! l = Some o ->
            <[next s := mkobj k pr ps]> (heap s) !! l = Some o).
  { intros l o L. rewrite lookup_insert_ne; [done|]. intros <-. congruence. }
  split; [split|].
  - intros l o L. simpl in *. rewrite lookup_insert in L.
    case_decide as Heq.
    + injection L as <-. subst l. split; [lia|]. simpl.
      intros p P. destruct Hpr as [->| ->]; [discriminate|].
      injection P as <-. destruct F as [of F]. exists of. by apply Keep.
    + destruct (W _ _ L) as [Hl Hp]. split; [lia|].
      intros p P. destruct (Hp p P) as [op Lp]. exists op. by apply Keep.
  - simpl. destruct F as [of F]. exists of. by apply Keep.
  - split; simpl; [lia|]. intros l o L. exists o. split; [by apply Keep|done].
Qed.

Lemma store_inv l o s u s' :
  store l o s = inr (u, s') -> s' = mkst (next s) (<[l := o]> (heap s)).
Proof. intros H. by injection H as <- <-. Qed.

Lemma assign_props_inv l ps s u s' :
  assign_props l ps s = inr (u, s') ->
  exists o, heap s !! l = Some o /\
    s' = mkst (next s) (<[l := mkobj (o_kind o) (o_proto o) (ps ∪ o_props o)]> (heap s)).
Proof.
  unfold assign_props, bind, load. destruct (heap s !! l) as [o|]; [|discriminate].
  intros H. exists o. split; [done|]. by apply store_inv in H.
Qed.

Lemma mono_assign_props fp l ps : mono fp (assign_props l ps).
Proof.
  intros s u s' [W F] H. apply assign_props_inv in H as (o & L & ->).
  set (o' := mkobj (o_kind o) (o_proto o) (ps ∪ o_props o)).
  assert (Keep : forall l2, is_Some (heap s !! l2) ->
            is_Some (<[l := o']> (heap s) !! l2)).
  { intros l2 [o2 L2]. rewrite lookup_insert. case_decide; [by eexists|by eexists]. }
  split; [split|].
  - intros l2 o2 L2. simpl in *. rewrite lookup_insert in L2.
    case_decide as Heq.
    + injection L2 as <-. subst l2. destruct (W _ _ L) as [Hl Hp].
      split; [done|]. intros p P. apply Keep. by apply Hp.
    + destruct (W _ _ L2) as [Hl Hp]. split; [done|].
      intros p P. apply Keep. by apply Hp.
  - simpl. by apply Keep.
  - split; simpl; [lia|]. intros l2 o2 L2. rewrite lookup_insert.
    case_decide as Heq.
    + subst l2. rewrite L in L2. injection L2 as <-. by exists o'.
    + by exists o2.
Qed.

Lemma mono_to_object fp v : mono fp (to_object v).
Proof.
  destruct v; simpl; try apply mono_throw; try apply mono_ret;
    apply mono_alloc; auto.
Qed.

Lemma mono_assign_sources fp l srcs : mono fp (assign_sources l srcs).
Proof.
  induction srcs as [|v r IH]; simpl; [apply mono_ret|].
  apply mono_bind; [apply mono_get_state|intros s].
  apply mono_bind; [apply mono_assign_props|intros _]. apply IH.
Qed.

Lemma mono_object_assign fp t srcs : mono fp (object_assign t srcs).
Proof.
  unfold object_assign. apply mono_bind; [apply mono_to_object|intros l].
  apply mono_bind; [apply mono_assign_sources|intros _]. apply mono_ret.
Qed.

Lemma mono_hex_finish fp this x y cp : mono fp (hex_finish fp this x y cp).
Proof.
  unfold hex_finish. apply mono_bind; [apply mono_get_state|intros s].
  apply mono_bind; [apply mono_alloc; auto|intros r].
  apply mono_bind; [apply mono_alloc; auto|intros lit].
  apply mono_bind; [apply mono_object_assign|intros c].
  apply mono_object_assign.
Qed.

Lemma mono_hex_rec fp fuel this a b c : mono fp (hex_rec fuel fp this a b c).
Proof.
  revert this a b c. induction fuel as [|fuel IH]; intros this a b c; simpl.
  { apply mono_throw. }
  apply mono_bind.
  { destruct c; try apply mono_ret.
    apply mono_bind; [apply mono_alloc; auto|intros l]. apply mono_ret. }
  intros cp. apply mono_bind; [apply mono_get_state|intros s].
  destruct (isObject (heap s) a).
  - destruct a; try apply mono_throw.
    apply mono_bind; [apply mono_get|intros x].
    apply mono_bind; [apply mono_get|intros y]. apply IH.
  - destruct (isArray (heap s) a); [|apply mono_hex_finish].
    destruct a; try apply mono_throw.
    apply mono_bind; [apply mono_get|intros x].
    apply mono_bind; [apply mono_get|intros y].
    apply mono_bind; [apply mono_alloc; auto|intros l2]. apply mono_hex_finish.
Qed.

Lemma bind_inr {A B} (m : M A) (k : A -> M B) s r :
  bind m k s = inr r -> exists a s1, m s = inr (a, s1) /\ k a s1 = inr r.
Proof.
  unfold bind. destruct (m s) as [e|[a s1]]; [discriminate|]. eauto.
Qed.

Lemma get_state_inv s a st : get_state s = inr (a, st) -> a = s /\ st = s.
Proof. intros H. by injection H as <- <-. Qed.

Lemma ret_inv {A} (x : A) s a st : ret x s = inr (a, st) -> a = x /\ st = s.
Proof. intros H. by injection H as <- <-. Qed.

(** Symbolic execution of a successful run: every hypothesis
    [bind m k s = inr _] is split into its two steps, and the steps that
    read the state, return, allocate or assign are replaced by their
    effect. *)
Ltac dsteps :=
  repeat match goal with
  | G : bind _ _ _ = inr _ |- _ =>
      apply bind_inr in G; destruct G as (? & ? & ? & G); cbv beta in G
  | G : get_state _ = inr _ |- _ => apply get_state_inv in G; destruct G; subst
  | G : ret _ _ = inr _ |- _ => apply ret_inv in G; destruct G; subst
  | G : alloc _ _ = inr _ |- _ => apply alloc_inv in G; destruct G; subst
  | G : assign_props _ _ _ = inr _ |- _ =>
      apply assign_props_inv in G; destruct G as (? & ? & G); subst
  end.

Lemma assign_one_inv l v s u s' :
  assign_sources l [v] s = inr (u, s') ->
  exists o, heap s !! l = Some o /\
    s' = mkst (next s)
      (<[l := mkobj (o_kind o) (o_proto o) (own_enum (heap s) v ∪ o_props o)]> (heap s)).
Proof.
  intros H. simpl in H. dsteps. eauto.
Qed.

Lemma lookup_sub_union (m1 m2 m3 : gmap string value) :
  (forall k w, m1 !! k = Some w -> m2 !! k = Some w) ->
  forall k w, m1 !! k = Some w -> (m2 ∪ m3) !! k = Some w.
Proof. intros Hs k w Hk. apply lookup_union_Some_l. by apply Hs. Qed.

(** The outer [Object.assign(r, undefined, c)] of the constructor: every
    own property of [c] ends up on [r]. *)
Lemma outer_assign r c oc s v s' :
  object_assign (VRef r) [VUndef; VRef c] s = inr (v, s') ->
  heap s !! c = Some oc ->
  v = VRef r /\ exists or, heap s' !! r = Some or /\
    forall k w, o_props oc !! k = Some w -> o_props or !! k = Some w.
Proof.
  intros H Lc. unfold object_assign in H. simpl in H. dsteps.
  split; [done|]. simpl. rewrite lookup_insert_eq. eexists. split; [done|].
  simpl. intros k w Hk. apply lookup_union_Some_l.
  rewrite lookup_insert. case_decide as Heq.
  - subst c. simpl. rewrite Lc in *. simplify_eq. by rewrite map_empty_union.
  - by rewrite Lc.
Qed.

(** The inner [Object.assign(customProps, lit)]: the result [c] holds
    every property of [lit]. *)
Lemma inner_assign cp lit ol s v s' :
  object_assign cp [VRef lit] s = inr (v, s') ->
  heap s !! lit = Some ol -> lit < next s ->
  exists c oc, v = VRef c /\ heap s' !! c = Some oc /\
    forall k w, o_props ol !! k = Some w -> o_props oc !! k = Some w.
Proof.
  intros H Ll Hlt. unfold object_assign in H.
  apply bind_inr in H as (c & s1 & E & H).
  assert (L1 : heap s1 !! lit = Some ol).
  { destruct cp; simpl in E; try discriminate;
      try (injection E as <- <-; done);
      (injection E as <- <-; simpl; rewrite lookup_insert_ne; [done|lia]). }
  simpl in H. dsteps. exists c. eexists. split; [done|].
  simpl. rewrite lookup_insert_eq. split; [done|].
  simpl. rewrite L1. intros k w Hk. by apply lookup_union_Some_l.
Qed.

(** What [infer] returns are numbers, never [-0] when its inputs are not. *)
Lemma infer_isNumber h x y :
  isNumber h (fst (infer h x y)) = true /\ isNumber h (snd (infer h x y)) = true.
Proof.
  unfold infer.
  destruct (isNumber h x) eqn:Hx, (isNumber h y) eqn:Hy; simpl;
    rewrite ?Hx, ?Hy; simpl; rewrite ?Hx, ?Hy; auto.
Qed.

Lemma infer_cases h x y :
  (fst (infer h x y) = x \/ fst (infer h x y) = y \/ fst (infer h x y) = VNum (NFin 0)) /\
  (snd (infer h x y) = x \/ snd (infer h x y) = y \/ snd (infer h x y) = VNum (NFin 0)).
Proof.
  unfold infer.
  destruct (isNumber h x) eqn:Hx, (isNumber h y) eqn:Hy; simpl;
    rewrite ?Hx, ?Hy; simpl; rewrite ?Hx, ?Hy; auto.
Qed.

Lemma unsign_not_negzero v : unsignNegativeZero v <> VNum NNegZero.
Proof. destruct v as [| | |[]| |]; simpl; congruence. Qed.

Lemma infer_not_negzero h x y :
  fst (infer h (unsignNegativeZero x) (unsignNegativeZero y)) <> VNum NNegZero /\
  snd (infer h (unsignNegativeZero x) (unsignNegativeZero y)) <> VNum NNegZero.
Proof.
  destruct (infer_cases h (unsignNegativeZero x) (unsignNegativeZero y))
    as [[H|[H|H]] [H'|[H'|H']]]; rewrite H, H';
    repeat split; try apply unsign_not_negzero; congruence.
Qed.

(** A hex in state [s]: a plain object whose prototype is [fp] and whose
    own [x] and [y] are numbers other than [-0]. *)
Definition is_hex (fp : loc) (s : state) (l : loc) : Prop :=
  exists o vx vy,
    heap s !! l = Some o /\ o_kind o = KPlain /\ o_proto o = Some fp /\
    o_props o !! "x" = Some vx /\ o_props o !! "y" = Some vy /\
    isNumber (heap s) vx = true /\ isNumber (heap s) vy = true /\
    vx <> VNum NNegZero /\ vy <> VNum NNegZero.

(** [hex_finish] (with [this] undefined) returns a fresh object with
    prototype [fp] whose coordinates are those [infer] chose. *)
Lemma hex_finish_spec fp x y cp s v s' :
  inv fp s -> hex_finish fp VUndef x y cp s = inr (v, s') ->
  let xy := infer (heap s) (unsignNegativeZero x) (unsignNegativeZero y) in
  exists r o, v = VRef r /\ heap s !! r = None /\ heap s' !! r = Some o /\
    o_kind o = KPlain /\ o_proto o = Some fp /\
    o_props o !! "x" = Some (fst xy) /\ o_props o !! "y" = Some (snd xy).
Proof.
  intros I H xy. unfold hex_finish in H.
  apply bind_inr in H as (s0 & s0' & E0 & H).
  apply get_state_inv in E0 as [-> ->]. cbv zeta in H.
  apply bind_inr in H as (r & s1 & E1 & H).
  apply bind_inr in H as (lit & s2 & E2 & H).
  apply bind_inr in H as (c & s3 & E3 & H).
  destruct (mono_alloc fp KPlain (Some fp) ∅ ltac:(auto) _ _ _ I E1) as [I1 _].
  destruct (mono_alloc fp KPlain None _ ltac:(auto) _ _ _ I1 E2) as [I2 X2].
  destruct (mono_object_assign fp _ _ _ _ _ I2 E3) as [I3 X3].
  destruct (mono_object_assign fp _ _ _ _ _ I3 H) as [_ X4].
  apply alloc_inv in E1 as [-> ->]. apply alloc_inv in E2 as [-> ->]. simpl in *.
  destruct (inner_assign _ _ _ _ _ _ E3 ltac:(simpl; by rewrite lookup_insert_eq) ltac:(simpl; lia)) as (c' & oc & -> & Lc & Hc).
  destruct (outer_assign _ _ _ _ _ _ H Lc) as [-> (or & Lr & Hr)].
  exists (next s), or. split; [done|]. split.
  { destruct (heap s !! next s) as [o|] eqn:L; [|done].
    destruct (proj1 I _ _ L). lia. }
  split; [done|].
  destruct (proj2 (extends_trans _ _ _ (extends_trans _ _ _ X2 X3) X4) (next s)
              (mkobj KPlain (Some fp) ∅)) as (o' & L' & K' & P').
  { simpl. by rewrite lookup_insert_eq. }
  rewrite Lr in L'. injection L' as <-. simpl in K', P'.
  split; [done|]. split; [done|].
  split; apply Hr, Hc; simpl; by simplify_map_eq.
Qed.

Lemma hex_finish_hex fp x y cp s v s' :
  inv fp s -> hex_finish fp VUndef x y cp s = inr (v, s') ->
  exists r, v = VRef r /\ heap s !! r = None /\ is_hex fp s' r.
Proof.
  intros I H. pose proof (mono_hex_finish fp VUndef x y cp _ _ _ I H) as [_ X].
  destruct (hex_finish_spec _ _ _ _ _ _ _ I H) as (r & o & -> & N & L & K & P & Hx & Hy).
  exists r. split; [done|]. split; [done|].
  destruct (infer_isNumber (heap s) (unsignNegativeZero x) (unsignNegativeZero y)) as [Nx Ny].
  destruct (infer_not_negzero (heap s) x y) as [Zx Zy].
  exists o, (infer (heap s) (unsignNegativeZero x) (unsignNegativeZero y)).1,
    (infer (heap s) (unsignNegativeZero x) (unsignNegativeZero y)).2.
  repeat split; try done; by eapply extends_isNumber.
Qed.

(** Every value the constructor returns is a fresh hex. *)
Lemma hex_rec_hex fp fuel a b c s v s' :
  inv fp s -> hex_rec fuel fp VUndef a b c s = inr (v, s') ->
  exists r, v = VRef r /\ heap s !! r = None /\ is_hex fp s' r.
Proof.
  revert a b c s v s'. induction fuel as [|fuel IH]; intros a b c s v s' I H.
  { discriminate. }
  simpl in H. apply bind_inr in H as (cp & s1 & E1 & H).
  assert (M1 : inv fp s1 /\ extends s s1).
  { destruct c; try (injection E1 as <- <-; exact (conj I (extends_refl _))).
    exact (mono_bind fp _ _ (mono_alloc fp KPlain None ∅ (or_introl eq_refl)) (fun l => mono_ret fp (VRef l)) s _ _ I E1). }
  destruct M1 as [I1 X1].
  assert (Fresh : forall r, heap s1 !! r = None -> heap s !! r = None).
  { intros r N. destruct (heap s !! r) as [o|] eqn:L; [|done].
    destruct (proj2 X1 _ _ L) as (o' & L' & _). congruence. }
  apply bind_inr in H as (s2 & s3 & E2 & H). apply get_state_inv in E2 as [-> ->].
  destruct (isObject (heap s1) a).
  - destruct a; try discriminate.
    apply bind_inr in H as (x & s4 & E4 & H).
    unfold get in E4. destruct (get_from _ _ _ _); [|discriminate].
    injection E4 as <- <-.
    apply bind_inr in H as (y & s5 & E5 & H).
    unfold get in E5. destruct (get_from _ _ _ _); [|discriminate].
    injection E5 as <- <-.
    destruct (IH _ _ _ _ _ _ I1 H) as (r & -> & N & Hh). eauto.
  - destruct (isArray (heap s1) a).
    + destruct a; try discriminate.
      apply bind_inr in H as (x & s4 & E4 & H).
      unfold get in E4. destruct (get_from _ _ _ _); [|discriminate].
      injection E4 as <- <-.
      apply bind_inr in H as (y & s5 & E5 & H).
      unfold get in E5. destruct (get_from _ _ _ _); [|discriminate].
      injection E5 as <- <-.
      apply bind_inr in H as (l2 & s6 & E6 & H).
      destruct (mono_alloc fp KPlain None ∅ ltac:(auto) _ _ _ I1 E6) as [I6 X6].
      destruct (hex_finish_hex _ _ _ _ _ _ _ I6 H) as (r & -> & N & Hh).
      exists r. split; [done|]. split; [|done]. apply Fresh.
      destruct (heap s1 !! r) as [o|] eqn:L; [|done].
      destruct (proj2 X6 _ _ L) as (o' & L' & _). congruence.
    + destruct (hex_finish_hex _ _ _ _ _ _ _ I1 H) as (r & -> & N & Hh). eauto.
Qed.


(** ** Running the constructor forward *)

Lemma bind_ok {A B} (m : M A) (k : A -> M B) s a s1 :
  m s = inr (a, s1) -> bind m k s = k a s1.
Proof. unfold bind. by intros ->. Qed.

Lemma assign_sources_one c oc v s :
  heap s !! c = Some oc ->
  assign_sources c [v] s =
  inr (tt, mkst (next s)
    (<[c := mkobj (o_kind oc) (o_proto oc) (own_enum (heap s) v ∪ o_props oc)]> (heap s))).
Proof.
  intros H. unfold assign_sources, assign_props, bind, get_state, load, store, ret.
  simpl. rewrite H. reflexivity.
Qed.

Lemma object_assign_one c oc v s :
  heap s !! c = Some oc ->
  object_assign (VRef c) [v] s =
  inr (VRef c, mkst (next s)
    (<[c := mkobj (o_kind oc) (o_proto oc) (own_enum (heap s) v ∪ o_props oc)]> (heap s))).
Proof.
  intros H. unfold object_assign, assign_sources, assign_props, bind, get_state,
    load, store, ret, to_object. simpl. rewrite H. reflexivity.
Qed.

Lemma object_assign_two c oc v w s :
  heap s !! c = Some oc ->
  object_assign (VRef c) [v; w] s =
  let ps := own_enum (heap s) v ∪ o_props oc in
  let h1 := <[c := mkobj (o_kind oc) (o_proto oc) ps]> (heap s) in
  inr (VRef c, mkst (next s)
    (<[c := mkobj (o_kind oc) (o_proto oc) (own_enum h1 w ∪ ps)]> h1)).
Proof.
  intros H. unfold object_assign, assign_sources, assign_props, bind, get_state,
    load, store, ret, to_object. simpl. rewrite H. simpl.
  rewrite lookup_insert_eq. reflexivity.
Qed.

(** [hex_finish] with an object [c] as [customProps]: the result is the
    object allocated first; it and [c] both end up with the coordinates
    [L] on top of the own properties [c] had. *)
Lemma hex_finish_ref fp x y (c : loc) oc s :
  heap s !! c = Some oc -> c < next s ->
  let xy := infer (heap s) (unsignNegativeZero x) (unsignNegativeZero y) in
  let L := <["y" := snd xy]> {["x" := fst xy]} in
  exists s', hex_finish fp VUndef x y (VRef c) s = inr (VRef (next s), s') /\
    next s' = S (S (next s)) /\
    heap s' !! next s = Some (mkobj KPlain (Some fp) (L ∪ o_props oc)) /\
    heap s' !! c = Some (mkobj (o_kind oc) (o_proto oc) (L ∪ o_props oc)) /\
    forall l, l <> next s -> l <> S (next s) -> l <> c -> heap s' !! l = heap s !! l.
Proof.
  intros Lc Hc xy L.
  assert (N1 : c <> next s) by lia. assert (N2 : c <> S (next s)) by lia.
  assert (N3 : S (next s) <> next s) by lia.
  eexists. split.
  { unfold hex_finish. cbn [bind get_state alloc next heap].
    erewrite bind_ok;
      [|apply object_assign_one; cbn; rewrite !lookup_insert_ne by done; exact Lc].
    erewrite object_assign_two; [reflexivity|].
    cbn. rewrite lookup_insert_ne by done. rewrite lookup_insert_ne by lia.
    apply lookup_insert_eq. }
  cbn [own_enum heap next o_kind o_proto o_props].
  rewrite lookup_insert_eq.
  split; [done|]. split; [|split; [|intros l H1 H2 H3]].
  - rewrite lookup_insert_eq. simplify_map_eq. rewrite !map_union_empty. reflexivity.
  - simplify_map_eq. reflexivity.
  - simplify_map_eq. reflexivity.
Qed.

(** [hex_finish] with a number [k] as [customProps]: [Object.assign]
    wraps [k] in a fresh [Number] object, and the result carries the
    coordinates only. *)
Lemma hex_finish_num fp x y k s :
  let xy := infer (heap s) (unsignNegativeZero x) (unsignNegativeZero y) in
  exists s', hex_finish fp VUndef x y (VNum k) s = inr (VRef (next s), s') /\
    heap s' !! next s =
      Some (mkobj KPlain (Some fp) (<["y" := snd xy]> {["x" := fst xy]})).
Proof.
  intros xy. assert (N3 : S (S (next s)) <> next s) by lia.
  assert (N4 : S (S (next s)) <> S (next s)) by lia.
  assert (N5 : S (next s) <> next s) by lia.
  eexists. split.
  { unfold hex_finish. cbn [bind get_state alloc next heap].
    erewrite bind_ok;
      [|unfold object_assign; cbn [to_object]; erewrite bind_ok; [|reflexivity];
        cbn [next heap]; erewrite bind_ok;
        [|apply assign_sources_one; cbn; apply lookup_insert_eq]; reflexivity].
    cbn [next heap].
    erewrite object_assign_two; [reflexivity|]. cbn.
    repeat rewrite lookup_insert_ne by lia. apply lookup_insert_eq. }
  simpl. simplify_map_eq. rewrite !map_union_empty. reflexivity.
Qed.

(** Allocating a plain object at a fresh location changes no type tag:
    a dangling location already reads as a plain object. *)
Lemma type_tag_alloc_plain h e ps v :
  h !! e = None -> type_tag (<[e := plain ps]> h) v = type_tag h v.
Proof.
  intros N. destruct v as [| | | | |l]; try reflexivity. simpl.
  destruct (decide (l = e)) as [->|Ne].
  - by rewrite lookup_insert_eq, N.
  - by rewrite lookup_insert_ne by congruence.
Qed.

Lemma infer_ext h h' x y :
  (forall v, isNumber h v = isNumber h' v) -> infer h x y = infer h' x y.
Proof. intros E. unfold infer. simpl. by rewrite !E. Qed.

Lemma infer_alloc_plain h e ps x y :
  h !! e = None -> infer (<[e := plain ps]> h) x y = infer h x y.
Proof.
  intros N. apply infer_ext. intros v. unfold isNumber. by rewrite type_tag_alloc_plain.
Qed.

Lemma isNumber_not_object h v :
  isNumber h v = true -> isObject h v = false /\ isArray h v = false.
Proof. unfold isNumber, isObject, isArray. by destruct (type_tag h v). Qed.

Lemma unsign_id v : v <> VNum NNegZero -> unsignNegativeZero v = v.
Proof. destruct v as [| | |[]| |]; simpl; congruence. Qed.

Lemma infer_nums h x y :
  isNumber h x = true -> isNumber h y = true -> infer h x y = (x, y).
Proof. intros Hx Hy. unfold infer. simpl. by rewrite Hx, Hy. Qed.

(** One call of [Hex] on a value that is neither an object nor an array. *)
Lemma hex_rec_prim fp n this a b cp s :
  cp <> VUndef -> isObject (heap s) a = false -> isArray (heap s) a = false ->
  hex_rec (S n) fp this a b cp s = hex_finish fp this a b cp s.
Proof.
  intros Hc Ho Ha. destruct cp; try congruence; cbn [hex_rec];
    unfold bind; cbn -[isObject isArray hex_finish]; by rewrite Ho, Ha.
Qed.

(** The state after the default [customProps = {}] is allocated. *)
Definition with_default (s : state) : state :=
  mkst (S (next s)) (<[next s := plain ∅]> (heap s)).

Lemma hex_rec_prim_undef fp n this a b s :
  isObject (heap (with_default s)) a = false ->
  isArray (heap (with_default s)) a = false ->
  hex_rec (S n) fp this a b VUndef s =
  hex_finish fp this a b (VRef (next s)) (with_default s).
Proof.
  unfold with_default. cbn [heap next]. intros Ho Ha. cbn [hex_rec]. unfold bind.
  cbn -[isObject isArray hex_finish]. by rewrite Ho, Ha.
Qed.

(** One call of [Hex] on an object: [x] and [y] are read from it and the
    object itself becomes [customProps] of the recursive call. *)
Lemma hex_rec_obj fp n this l b cp s vx vy :
  cp <> VUndef -> isObject (heap s) (VRef l) = true ->
  get_from chain_fuel (heap s) l "x" = Some vx ->
  get_from chain_fuel (heap s) l "y" = Some vy ->
  hex_rec (S n) fp this (VRef l) b cp s = hex_rec n fp VUndef vx vy (VRef l) s.
Proof.
  intros Hc Ho Hx Hy. destruct cp; try congruence; cbn [hex_rec];
    unfold bind; cbn -[isObject get_from hex_rec]; rewrite Ho;
    unfold get; by rewrite Hx, Hy.
Qed.

Lemma hex_rec_obj_undef fp n this l b s vx vy :
  isObject (heap (with_default s)) (VRef l) = true ->
  get_from chain_fuel (heap (with_default s)) l "x" = Some vx ->
  get_from chain_fuel (heap (with_default s)) l "y" = Some vy ->
  hex_rec (S n) fp this (VRef l) b VUndef s =
  hex_rec n fp VUndef vx vy (VRef l) (with_default s).
Proof.
  unfold with_default. cbn [heap next]. intros Ho Hx Hy. cbn [hex_rec]. unfold bind.
  cbn -[isObject get_from hex_rec chain_fuel]. rewrite Ho. unfold get.
  cbn [heap]. rewrite Hx. cbn [heap]. by rewrite Hy.
Qed.

(** Reads along prototype chains inside a well-formed heap see only its
    objects: a heap that agrees with it on them gives the same reads. *)
Lemma get_from_agree f s h' l k :
  wf s -> (forall l o, heap s !! l = Some o -> h' !! l = Some o) ->
  is_Some (heap s !! l) -> get_from f h' l k = get_from f (heap s) l k.
Proof.
  intros W A. revert l. induction f as [|f IH]; intros l [o L]; [done|].
  simpl. rewrite (A _ _ L), L.
  destruct (o_props o !! k); [done|].
  destruct (o_proto o) as [p|] eqn:P; [|done].
  apply IH. exact (proj2 (W _ _ L) p P).
Qed.

Lemma coords_union (ps : gmap string value) vx vy :
  ps !! "x" = Some vx -> ps !! "y" = Some vy ->
  <["y" := vy]> {["x" := vx]} ∪ ps = ps.
Proof.
  intros Hx Hy. apply map_subseteq_union, map_subseteq_spec.
  intros i w. rewrite lookup_insert_Some, lookup_singleton_Some.
  intros [[<- <-]|[_ [<- <-]]]; done.
Qed.

Lemma wf_fresh s : wf s -> heap s !! next s = None.
Proof.
  intros W. destruct (heap s !! next s) as [o|] eqn:E; [|done].
  destruct (W _ _ E). lia.
Qed.

(** Passing a hex [h] to [Hex]: the result is a fresh object with exactly
    the contents of [h], and no older object changes. *)
Lemma clone_run fp s h :
  inv fp s -> is_hex fp s h ->
  exists o s', heap s !! h = Some o /\
    Hex fp (VRef h) VUndef VUndef s = inr (VRef (S (next s)), s') /\
    heap s' !! S (next s) = Some o /\
    forall l : loc, l < next s -> heap s' !! l = heap s !! l.
Proof.
  intros [W F] (o & vx & vy & L & K & P & Hx & Hy & Nx & Ny & Zx & Zy).
  assert (Hlt : h < next s) by (by destruct (W _ _ L)).
  pose proof (wf_fresh s W) as Fr.
  assert (L1 : heap (with_default s) !! h = Some o).
  { cbn. rewrite lookup_insert_ne by lia. exact L. }
  assert (Gx : get_from chain_fuel (heap (with_default s)) h "x" = Some vx).
  { unfold chain_fuel. cbn [get_from]. by rewrite L1, Hx. }
  assert (Gy : get_from chain_fuel (heap (with_default s)) h "y" = Some vy).
  { unfold chain_fuel. cbn [get_from]. by rewrite L1, Hy. }
  assert (O1 : isObject (heap (with_default s)) (VRef h) = true).
  { unfold isObject. cbn [type_tag]. by rewrite L1, K. }
  assert (Nx1 : isNumber (heap (with_default s)) vx = true).
  { unfold isNumber. cbn [heap with_default]. by rewrite type_tag_alloc_plain. }
  assert (Ny1 : isNumber (heap (with_default s)) vy = true).
  { unfold isNumber. cbn [heap with_default]. by rewrite type_tag_alloc_plain. }
  destruct (isNumber_not_object _ _ Nx1) as [Ox Ax].
  unfold Hex, max_depth.
  rewrite (hex_rec_obj_undef fp 999 VUndef h VUndef s vx vy O1 Gx Gy).
  rewrite (hex_rec_prim fp 998 VUndef vx vy (VRef h) (with_default s)
             ltac:(discriminate) Ox Ax).
  destruct (hex_finish_ref fp vx vy h o (with_default s) L1 ltac:(cbn; lia))
    as (s' & E & _ & R & C & Rest).
  rewrite (unsign_id _ Zx), (unsign_id _ Zy), (infer_nums _ _ _ Nx1 Ny1) in R, C.
  cbn [fst snd] in R, C. rewrite (coords_union _ _ _ Hx Hy) in R, C.
  assert (Eo : mkobj KPlain (Some fp) (o_props o) = o).
  { destruct o; simpl in *; by subst. }
  exists o, s'. split; [done|]. split; [exact E|]. split.
  - rewrite Eo in R. exact R.
  - intros l Hl. destruct (decide (l = h)) as [->|Ne].
    + rewrite C, L. by destruct o.
    + rewrite Rest by (cbn; lia). cbn. rewrite lookup_insert_ne by lia. reflexivity.
Qed.
(** Boolean versions of [wf], [inv] and [is_hex], to evaluate them on
    concrete states. *)
Definition wfb (s : state) : bool :=
  forallb (fun lo : loc * obj =>
    Nat.ltb lo.1 (next s) &&
    match o_proto lo.2 with
    | None => true
    | Some p => match heap s !! p with Some _ => true | None => false end
    end) (map_to_list (heap s)).

Definition invb (fp : loc) (s : state) : bool :=
  wfb s && match heap s !! fp with Some _ => true | None => false end.

Definition negzero (v : value) : bool :=
  match v with VNum NNegZero => true | _ => false end.

Definition is_hexb (fp : loc) (s : state) (l : loc) : bool :=
  match heap s !! l with
  | Some o =>
      match o_kind o, o_proto o, o_props o !! "x", o_props o !! "y" with
      | KPlain, Some p, Some vx, Some vy =>
          Nat.eqb p fp && isNumber (heap s) vx && isNumber (heap s) vy &&
          negb (negzero vx) && negb (negzero vy)
      | _, _, _, _ => false
      end
  | None => false
  end.

Lemma wfb_wf s : wfb s = true -> wf s.
Proof.
  unfold wfb. rewrite forallb_forall. intros H l o L.
  specialize (H (l, o)). rewrite <- list_elem_of_In, elem_of_map_to_list in H.
  apply andb_prop in H as [Hl Hp]; [|exact L]. cbn in *. split; [by apply Nat.ltb_lt|].
  intros p P. rewrite P in Hp. by destruct (heap s !! p).
Qed.

Lemma invb_inv fp s : invb fp s = true -> inv fp s.
Proof.
  unfold invb. intros [W F]%andb_prop. split; [by apply wfb_wf|].
  by destruct (heap s !! fp).
Qed.

Lemma negzero_ne v : negzero v = false -> v <> VNum NNegZero.
Proof. by intros E ->. Qed.

Lemma is_hexb_is_hex fp s l : is_hexb fp s l = true -> is_hex fp s l.
Proof.
  unfold is_hexb. destruct (heap s !! l) as [o|] eqn:L; [|done].
  destruct (o_kind o) eqn:K; try done. destruct (o_proto o) as [p|] eqn:P; [|done].
  destruct (o_props o !! "x") as [vx|] eqn:X; [|done].
  destruct (o_props o !! "y") as [vy|] eqn:Y; [|done].
  intros Hb. apply andb_prop in Hb as [H Zy]. apply andb_prop in H as [H Zx].
  apply andb_prop in H as [H Ny]. apply andb_prop in H as [H Nx].
  apply Nat.eqb_eq in H as ->. exists o, vx, vy.
  repeat split; try done; apply negzero_ne; by apply negb_true_iff.
Qed.

(** The state in which [Hex] continues after [customProps] is
    defaulted. *)
Definition pre_state (c : value) (s : state) : state :=
  match c with VUndef => with_default s | _ => s end.

Lemma pre_state_agree c s : wf s ->
  heap s ⊆ heap (pre_state c s) /\ next s <= next (pre_state c s) /\
  (forall v, isNumber (heap (pre_state c s)) v = isNumber (heap s) v) /\
  (forall v, type_tag (heap (pre_state c s)) v = type_tag (heap s) v) /\
  (forall l, l < next s -> heap (pre_state c s) !! l = heap s !! l).
Proof.
  intros W. pose proof (wf_fresh s W) as Fr.
  destruct c; cbn;
    try (split; [done|]; split; [lia|]; split; [done|]; split; [done|done]).
  split; [|split; [|split; [|split]]].
  - by apply insert_subseteq.
  - lia.
  - intros v. unfold isNumber. by rewrite type_tag_alloc_plain.
  - intros v. by rewrite type_tag_alloc_plain.
  - intros l Hl. rewrite lookup_insert_ne by lia. reflexivity.
Qed.

(** [Hex] on a plain object whose [x] is neither an object nor an array:
    one recursive call, then [hex_finish] with the object as
    [customProps]. *)
Lemma hex_obj_step fp s l o b c vx vy :
  wf s -> heap s !! l = Some o -> o_kind o = KPlain ->
  get_from chain_fuel (heap s) l "x" = Some vx ->
  get_from chain_fuel (heap s) l "y" = Some vy ->
  isObject (heap s) vx = false -> isArray (heap s) vx = false ->
  Hex fp (VRef l) b c s = hex_finish fp VUndef vx vy (VRef l) (pre_state c s).
Proof.
  intros W L K Gx Gy Ox Ax.
  destruct (pre_state_agree c s W) as (Sub & _ & _ & T & _).
  assert (Ag : forall k, get_from chain_fuel (heap (pre_state c s)) l k =
                         get_from chain_fuel (heap s) l k).
  { intros k. apply get_from_agree; [done| |by eexists].
    intros l' o' H. by eapply lookup_weaken. }
  assert (O1 : isObject (heap (pre_state c s)) (VRef l) = true).
  { unfold isObject. rewrite T. cbn. by rewrite L, K. }
  assert (Ox' : isObject (heap (pre_state c s)) vx = false).
  { unfold isObject. by rewrite T. }
  assert (Ax' : isArray (heap (pre_state c s)) vx = false).
  { unfold isArray. by rewrite T. }
  pose proof (eq_trans (Ag "x") Gx) as Gx'. pose proof (eq_trans (Ag "y") Gy) as Gy'.
  unfold Hex, max_depth. destruct c;
    [rewrite (hex_rec_obj_undef fp 999 VUndef l b s vx vy O1 Gx' Gy');
     exact (hex_rec_prim fp 998 VUndef vx vy (VRef l) (with_default s)
             ltac:(discriminate) Ox' Ax')|..];
    rewrite (hex_rec_obj fp 999 VUndef l b _ s vx vy)
      by first [discriminate | exact O1 | exact Gx | exact Gy];
    exact (hex_rec_prim fp 998 VUndef vx vy (VRef l) s ltac:(discriminate) Ox Ax).
Qed.

(** One step of [[Get]]. *)
Lemma get_from_unfold f (h : gmap loc obj) (l : loc) k :
  get_from (S f) h l k =
  match h !! l with
  | None => None
  | Some o =>
      match o_props o !! k with
      | Some v => Some v
      | None => match o_proto o with None => Some VUndef | Some p => get_from f h p k end
      end
  end.
Proof. reflexivity. Qed.

(** [coordinates()] reads [x], [y] and [z] only. *)
Lemma coordinates_agree s l1 l2 :
  (forall k, get_from chain_fuel (heap s) l1 k = get_from chain_fuel (heap s) l2 k) ->
  Prototype.coordinates (VRef l1) s = Prototype.coordinates (VRef l2) s.
Proof.
  intros G. unfold Prototype.coordinates, bind, get.
  rewrite (G "x"). destruct (get_from chain_fuel (heap s) l2 "x"); [|reflexivity].
  cbv beta iota. rewrite (G "y").
  destruct (get_from chain_fuel (heap s) l2 "y"); [|reflexivity].
  cbv beta iota. rewrite (G "z"). reflexivity.
Qed.

Lemma unsign_num n : exists n', unsignNegativeZero (VNum n) = VNum n'.
Proof. destruct n; eexists; reflexivity. Qed.

End HeapFacts.

(* ------------------------------------------------------------------ *)
(** ** Facts about the number model: exact arithmetic and rounding *)

Module NumFacts.

Local Open Scope Q_scope.

Definition is_double_q (q : Q) : bool :=
  Qeq_bool q 0 || match round64 q with NFin r => Qeq_bool r q | _ => false end.

Definition is_double (n : num) : bool :=
  match fin_val n with Some q => is_double_q q | None => false end.

Definition exact_add (a b : num) : bool :=
  match fin_val a, fin_val b with
  | Some p, Some q => is_double_q (p + q)
  | _, _ => false
  end.

Definition unz (n : num) : num :=
  match n with NNegZero => NFin 0 | m => m end.

Definition fin_eq (n : num) (q : Q) : Prop := exists r, fin_val n = Some r /\ r == q.

Definition dbl (q : Q) : Prop := q == 0 \/ exists r, round64 q = NFin r /\ r == q.

Lemma round64_proper p q : p == q -> round64 p = round64 q.
Proof. intros H. unfold round64. by rewrite (Qred_complete p q H). Qed.

Lemma Qeq_bool_proper p q r : p == q -> Qeq_bool p r = Qeq_bool q r.
Proof.
  intros H. destruct (Qeq_bool q r) eqn:E.
  - apply Qeq_bool_iff. apply Qeq_bool_iff in E. by rewrite H.
  - apply Qeq_bool_neq in E. destruct (Qeq_bool p r) eqn:F; [|done].
    apply Qeq_bool_iff in F. exfalso. apply E. by rewrite <- H.
Qed.

Lemma mk_fin_proper b p q : p == q -> mk_fin b p = mk_fin b q.
Proof.
  intros H. unfold mk_fin. rewrite (Qeq_bool_proper p q 0 H). by rewrite (round64_proper p q H).
Qed.

Lemma dbl_proper p q : p == q -> dbl p -> dbl q.
Proof.
  intros H [Z|(r & R & E)].
  - left. by rewrite <- H.
  - right. exists r. rewrite <- (round64_proper p q H). split; [done|]. by rewrite E.
Qed.

Lemma dbl_of q : is_double_q q = true -> dbl q.
Proof.
  unfold is_double_q. intros [Z|R]%orb_prop.
  - left. by apply Qeq_bool_iff.
  - right. destruct (round64 q) as [r| | |]; try done. exists r. split; [done|]. by apply Qeq_bool_iff.
Qed.

Lemma fin_eq_proper n p q : fin_eq n p -> p == q -> fin_eq n q.
Proof. intros (r & F & E) H. exists r. split; [done|]. by rewrite E. Qed.

Lemma mk_fin_exact b q : dbl q -> fin_eq (mk_fin b q) q.
Proof.
  intros D. unfold mk_fin. destruct (Qeq_bool q 0) eqn:E.
  - apply Qeq_bool_iff in E. exists 0. destruct b; (split; [reflexivity|by rewrite E]).
  - destruct D as [Z|(r & R & Er)].
    + exfalso. by apply (Qeq_bool_neq _ _ E).
    + rewrite R. by exists r.
Qed.

(** A finite number is [-0] or [NFin r]. *)
Lemma fin_eq_cases n q :
  fin_eq n q -> (n = NNegZero /\ q == 0) \/ exists r, n = NFin r /\ r == q.
Proof.
  intros (r & F & E). destruct n as [r'| | |]; cbn in F; try discriminate.
  - right. exists r'. injection F as ->. done.
  - left. injection F as <-. split; [done|by rewrite <- E].
Qed.

Lemma add_exact x y p q :
  fin_eq x p -> fin_eq y q -> dbl (p + q) -> fin_eq (add x y) (p + q).
Proof.
  intros Hx Hy D.
  destruct (fin_eq_cases _ _ Hx) as [[-> Ep]|(r1 & -> & E1)];
  destruct (fin_eq_cases _ _ Hy) as [[-> Eq]|(r2 & -> & E2)]; cbn [add].
  - exists 0. split; [done|]. rewrite Ep, Eq. reflexivity.
  - exists r2. split; [done|]. rewrite Ep, E2. ring.
  - exists r1. split; [done|]. rewrite Eq, E1. ring.
  - apply (fin_eq_proper _ (r1 + r2)); [|by rewrite E1, E2].
    apply mk_fin_exact. apply (dbl_proper (p + q)); [by rewrite E1, E2|done].
Qed.

Lemma neg_exact x p : fin_eq x p -> fin_eq (neg x) (- p).
Proof.
  intros Hx. destruct (fin_eq_cases _ _ Hx) as [[-> Ep]|(r & -> & E)]; cbn [neg].
  - exists 0. split; [done|]. rewrite Ep. reflexivity.
  - destruct (Qeq_bool r 0) eqn:Z.
    + apply Qeq_bool_iff in Z. exists 0. split; [done|]. rewrite <- E, Z. reflexivity.
    + exists (- r). split; [done|]. by rewrite E.
Qed.

Lemma sub_exact x y p q :
  fin_eq x p -> fin_eq y q -> dbl (p - q) -> fin_eq (sub x y) (p - q).
Proof. intros Hx Hy D. unfold sub. apply add_exact; [done|by apply neg_exact|done]. Qed.


Lemma same_fin x a p q : fin_eq x p -> fin_eq a q -> p == q -> same x a = true.
Proof.
  intros Hx Ha E.
  destruct (fin_eq_cases _ _ Hx) as [[-> Ep]|(r1 & -> & E1)];
  destruct (fin_eq_cases _ _ Ha) as [[-> Eq]|(r2 & -> & E2)]; cbn [same fin_val];
  apply Qeq_bool_iff; lra.
Qed.

Lemma unsign_unz n : unsignNegativeZero (VNum n) = VNum (unz n).
Proof. by destruct n. Qed.

Lemma fin_eq_unz n q : fin_eq n q -> fin_eq (unz n) q.
Proof. intros (r & F & E). destruct n; cbn in *; try discriminate; eexists; eauto. Qed.

Lemma fin_eq_val n q : fin_val n = Some q -> fin_eq n q.
Proof. intros F. by exists q. Qed.

Lemma is_finite_val n : is_finite n = true -> exists q, fin_val n = Some q.
Proof. destruct n; cbn; try done; eauto. Qed.

Lemma is_double_val n : is_double n = true -> exists q, fin_val n = Some q /\ dbl q.
Proof.
  unfold is_double. destruct (fin_val n) as [q|]; [|done]. intros D. exists q. by split; [|apply dbl_of].
Qed.

(** [a + b - b] recovers [a] when the sum is exact. *)
Lemma add_sub_exact a b :
  is_double a = true -> is_finite b = true -> exact_add a b = true ->
  same (unz (sub (unz (add a b)) b)) a = true.
Proof.
  intros Da Fb X. destruct (is_double_val a Da) as (p & Fa & Dp).
  destruct (is_finite_val b Fb) as (q & Fq).
  unfold exact_add in X. rewrite Fa, Fq in X. apply dbl_of in X.
  apply (same_fin _ _ (p + q - q) p); [|by apply fin_eq_val|ring].
  apply fin_eq_unz, sub_exact; [|by apply fin_eq_val|].
  - apply fin_eq_unz, add_exact; by try apply fin_eq_val.
  - eapply dbl_proper; [|exact Dp]. ring.
Qed.

Lemma dbl_0 : dbl 0.
Proof. left. reflexivity. Qed.








































End NumFacts.

(* ------------------------------------------------------------------ *)
(** ** Runs of the prototype methods that return a new hex *)

Module MethodFacts.

Import HeapFacts NumFacts.

(** Reading [this.k] as a number, as [Prototype.coord] does. *)
Definition coord_val (s : state) (l : loc) (k : string) : option num :=
  match get_from chain_fuel (heap s) l k with
  | Some v => Prototype.to_num (heap s) v
  | None => None
  end.

Lemma coord_spec l k s :
  Prototype.coord (VRef l) k s =
    match coord_val s l k with Some n => inr (n, s) | None => inl NotModelled end.
Proof.
  unfold Prototype.coord, coord_val, bind, get, Prototype.num_of, get_state.
  destruct (get_from _ _ _ _) as [v|]; [|done]. cbn.
  destruct (Prototype.to_num _ _); reflexivity.
Qed.

Lemma coord_bind {A} l k n (f : num -> M A) s :
  coord_val s l k = Some n -> bind (Prototype.coord (VRef l) k) f s = f n s.
Proof. intros H. unfold bind. by rewrite coord_spec, H. Qed.

Lemma mono_derive fp this x y : mono fp (Prototype.derive fp this x y).
Proof.
  unfold Prototype.derive. apply mono_bind; [apply mono_get_state|intros s].
  apply mono_bind; [apply mono_alloc; auto|intros c]. apply mono_hex_rec.
Qed.

(** The new hex of [derive]: [Hex(x, y, Object.assign({}, this))]. *)
Lemma derive_run fp s l o x y :
  inv fp s -> heap s !! l = Some o ->
  exists s', Prototype.derive fp (VRef l) x y s = inr (VRef (S (next s)), s') /\
    inv fp s' /\ extends s s' /\
    heap s' !! (S (next s) : loc) =
      Some (mkobj KPlain (Some fp)
              (<["y" := VNum (unz y)]> {["x" := VNum (unz x)]} ∪ o_props o)) /\
    forall l' : loc, l' < next s -> heap s' !! l' = heap s !! l'.
Proof.
  intros I L. destruct I as [W F].
  pose proof (wf_fresh s W) as Fr.
  set (s1 := mkst (S (next s)) (<[next s := plain (o_props o)]> (heap s))).
  assert (L1 : heap s1 !! next s = Some (plain (o_props o))) by apply lookup_insert_eq.
  destruct (hex_finish_ref fp (VNum x) (VNum y) (next s) (plain (o_props o)) s1 L1
              ltac:(cbn; lia)) as (s' & E & _ & R & _ & Rest).
  assert (D : Prototype.derive fp (VRef l) x y s = inr (VRef (S (next s)), s')).
  { unfold Prototype.derive, Hex, max_depth. unfold bind at 1. cbn [get_state].
    unfold bind at 1. cbn [alloc own_enum]. rewrite L.
    refine (eq_trans (hex_rec_prim fp 999 VUndef (VNum x) (VNum y) (VRef (next s)) s1
                        _ _ _) E); [discriminate|reflexivity|reflexivity]. }
  destruct (mono_derive fp (VRef l) x y s _ _ (conj W F) D) as [I' X'].
  exists s'. split; [exact D|]. split; [done|]. split; [done|]. split.
  - refine (eq_trans R _). rewrite !unsign_unz, infer_nums by reflexivity. reflexivity.
  - intros l' Hl. rewrite Rest by (cbn; lia). cbn. rewrite lookup_insert_ne by lia. reflexivity.
Qed.

(** Every object of [s] is unchanged in [s']. *)
Definition agrees (s s' : state) : Prop :=
  forall l o, heap s !! l = Some o -> heap s' !! l = Some o.

Lemma frame_agrees s s' :
  wf s -> (forall l, l < next s -> heap s' !! l = heap s !! l) -> agrees s s'.
Proof. intros W F l o L. rewrite F; [done|]. by destruct (W _ _ L). Qed.

Lemma to_num_agree s s' v n :
  agrees s s' -> Prototype.to_num (heap s) v = Some n -> Prototype.to_num (heap s') v = Some n.
Proof.
  intros A. destruct v as [| | | | |l]; try done. cbn.
  destruct (heap s !! l) as [o|] eqn:L; [|discriminate]. by rewrite (A _ _ L).
Qed.

Lemma coord_val_agree s s' l k n :
  wf s -> agrees s s' -> coord_val s l k = Some n -> coord_val s' l k = Some n.
Proof.
  intros W A. unfold coord_val.
  destruct (get_from chain_fuel (heap s) l k) as [v|] eqn:G; [|discriminate].
  intros T. assert (Hl : is_Some (heap s !! l)).
  { unfold chain_fuel in G. cbn in G. destruct (heap s !! l); [by eexists|discriminate]. }
  rewrite (get_from_agree chain_fuel s (heap s') l k W A Hl), G.
  by apply (to_num_agree s).
Qed.

Lemma lookup_coords_x (u v : value) (P : gmap string value) :
  (<["y" := v]> {["x" := u]} ∪ P) !! "x" = Some u.
Proof. apply lookup_union_Some_l. by rewrite lookup_insert_ne, lookup_singleton_eq. Qed.

Lemma lookup_coords_y (u v : value) (P : gmap string value) :
  (<["y" := v]> {["x" := u]} ∪ P) !! "y" = Some v.
Proof. apply lookup_union_Some_l. apply lookup_insert_eq. Qed.

Lemma lookup_coords_other (u v : value) (P : gmap string value) k :
  k <> "x" -> k <> "y" -> (<["y" := v]> {["x" := u]} ∪ P) !! k = P !! k.
Proof.
  intros Hx Hy. apply lookup_union_r.
  rewrite lookup_insert_ne by congruence. by apply lookup_singleton_ne.
Qed.

(** The coordinates of a hex that [derive] made. *)
Lemma coord_val_new s r fp (x y : num) P :
  heap s !! r = Some (mkobj KPlain (Some fp) (<["y" := VNum y]> {["x" := VNum x]} ∪ P)) ->
  coord_val s r "x" = Some x /\ coord_val s r "y" = Some y.
Proof.
  intros L. unfold coord_val, chain_fuel. rewrite !get_from_unfold, L. cbn [o_props].
  by rewrite lookup_coords_x, lookup_coords_y.
Qed.


Lemma add_run fp s a b xa ya xb yb :
  coord_val s a "x" = Some xa -> coord_val s a "y" = Some ya ->
  coord_val s b "x" = Some xb -> coord_val s b "y" = Some yb ->
  Prototype.add fp (VRef a) (VRef b) s =
    Prototype.derive fp (VRef a) (JsNum.add xa xb) (JsNum.add ya yb) s.
Proof.
  intros Xa Ya Xb Yb. unfold Prototype.add.
  rewrite (coord_bind _ _ _ _ _ Xa), (coord_bind _ _ _ _ _ Ya),
    (coord_bind _ _ _ _ _ Xb), (coord_bind _ _ _ _ _ Yb). reflexivity.
Qed.

Lemma subtract_run fp s a b xa ya xb yb :
  coord_val s a "x" = Some xa -> coord_val s a "y" = Some ya ->
  coord_val s b "x" = Some xb -> coord_val s b "y" = Some yb ->
  Prototype.subtract fp (VRef a) (VRef b) s =
    Prototype.derive fp (VRef a) (sub xa xb) (sub ya yb) s.
Proof.
  intros Xa Ya Xb Yb. unfold Prototype.subtract.
  rewrite (coord_bind _ _ _ _ _ Xa), (coord_bind _ _ _ _ _ Ya),
    (coord_bind _ _ _ _ _ Xb), (coord_bind _ _ _ _ _ Yb). reflexivity.
Qed.



End MethodFacts.

(* ------------------------------------------------------------------ *)
(** ** The properties of the specification *)

Module Claims.

Import Examples HeapFacts NumFacts MethodFacts.

(** C1 (code bug): [Hex(1, 2)] returns a hex whose [z] is [undefined]:
    [Hex] never derives [z], so [x + y + z] is NaN, not [0]. *)
Lemma hex_1_2_z_undefined :
  prop_of (hex_of_nums (VNum (NFin 1)) (VNum (NFin 2))) "x" = Some (VNum (NFin 1)) /\
  prop_of (hex_of_nums (VNum (NFin 1)) (VNum (NFin 2))) "y" = Some (VNum (NFin 2)) /\
  prop_of (hex_of_nums (VNum (NFin 1)) (VNum (NFin 2))) "z" = Some VUndef.
Proof. vm_compute. repeat split. Qed.

(** C2, counterexample: [Hex(1, 2, null)] throws a [TypeError]: the
    default [customProps = {}] applies only to [undefined], and
    [Object.assign(null, ...)] throws. *)
Lemma hex_null_props_throws :
  Hex fp0 (VNum (NFin 1)) (VNum (NFin 2)) VNull st0 = inl TypeError.
Proof. vm_compute. reflexivity. Qed.

(** C2 (amended): for numbers [n], [m], [k], [Hex(n, m, k)] throws no
    error; its [x] and [y] are [n] and [m] (a [-0] made [0]), and [k] is
    ignored: the result is the same object as [Hex(n, m)] returns. *)
Lemma hex_three_numbers fp s n m k :
  exists r s' r0 s0,
    Hex fp (VNum n) (VNum m) (VNum k) s = inr (VRef r, s') /\
    Hex fp (VNum n) (VNum m) VUndef s = inr (VRef r0, s0) /\
    own s' (VRef r) "x" = Some (unsignNegativeZero (VNum n)) /\
    own s' (VRef r) "y" = Some (unsignNegativeZero (VNum m)) /\
    heap s' !! r = heap s0 !! r0.
Proof.
  destruct (unsign_num n) as [n' En]. destruct (unsign_num m) as [m' Em].
  unfold Hex, max_depth.
  rewrite (hex_rec_prim fp 999 VUndef (VNum n) (VNum m) (VNum k) s) by done.
  rewrite (hex_rec_prim_undef fp 999 VUndef (VNum n) (VNum m) s) by done.
  destruct (hex_finish_num fp (VNum n) (VNum m) k s) as (s' & E & R).
  destruct (hex_finish_ref fp (VNum n) (VNum m) (next s) (plain ∅) (with_default s)
              ltac:(apply lookup_insert_eq) ltac:(cbn; lia)) as (s0 & E0 & _ & R0 & _).
  rewrite En, Em, infer_nums in R, R0 by done. cbn [fst snd o_props plain] in R, R0.
  rewrite map_union_empty in R0.
  exists (next s), s', (next (with_default s)), s0.
  split; [exact E|]. split; [exact E0|].
  assert (R' : heap s' !! (next s : loc) =
    Some (mkobj KPlain (Some fp) (<["y":=VNum m']> {["x":=VNum n']}))) by exact R.
  unfold own. rewrite R', En, Em. cbn [o_props].
  split; [rewrite lookup_insert_ne by discriminate; apply lookup_singleton_eq|].
  split; [apply lookup_insert_eq|].
  exact (eq_sym R0).
Qed.

(** C3 (code bug): [Hex(1)] infers [y = 1] but leaves [z] undefined
    instead of [-2]. *)
Lemma hex_1_z_undefined :
  prop_of (hex_of_nums (VNum (NFin 1)) VUndef) "x" = Some (VNum (NFin 1)) /\
  prop_of (hex_of_nums (VNum (NFin 1)) VUndef) "y" = Some (VNum (NFin 1)) /\
  prop_of (hex_of_nums (VNum (NFin 1)) VUndef) "z" = Some VUndef.
Proof. vm_compute. repeat split. Qed.

(** C4 (code bug): [Hex({x: 1, y: 2, z: 5})] keeps [z = 5], copied as a
    custom property, instead of re-deriving it. *)
Lemma hex_obj_keeps_z :
  prop_of (hex_of_obj (<["z" := VNum (NFin 5)]> (<["y" := VNum (NFin 2)]>
             {["x" := VNum (NFin 1)]}))) "z" = Some (VNum (NFin 5)).
Proof. vm_compute. reflexivity. Qed.

(** C5 (code bug): [Hex({x: 0, y: 0, z: -0})] returns a hex whose [z] is
    [-0]. *)
Lemma hex_obj_negzero_z :
  prop_of (hex_of_obj (<["z" := VNum NNegZero]> (<["y" := VNum (NFin 0)]>
             {["x" := VNum (NFin 0)]}))) "z" = Some (VNum NNegZero).
Proof. vm_compute. reflexivity. Qed.

(** C6: passing a hex [h] to [Hex] returns a new object (a location
    unused before the call, so not [h]) with the same own properties as
    [h], custom ones included, and the same prototype; [h] itself is left
    unchanged; every property reads the same on both, and
    [coordinates()] of the clone returns the same as [coordinates()] of
    [h]. *)
Lemma hex_clone fp s h :
  inv fp s -> is_hex fp s h ->
  exists h' s', Hex fp (VRef h) VUndef VUndef s = inr (VRef h', s') /\
    h' <> h /\ heap s !! h' = None /\
    (forall k, own s' (VRef h') k = own s (VRef h) k) /\
    (forall k, own s' (VRef h) k = own s (VRef h) k) /\
    (forall k, prop s' (VRef h') k = prop s' (VRef h) k) /\
    Prototype.coordinates (VRef h') s' = Prototype.coordinates (VRef h) s'.
Proof.
  intros I Hh. destruct I as [W F].
  destruct (clone_run fp s h (conj W F) Hh) as (o & s' & L & E & L' & Rest).
  assert (Hlt : h < next s) by (by destruct (W _ _ L)).
  assert (L2 : heap s' !! (S (next s) : loc) = Some o) by exact L'.
  assert (G : forall k, get_from chain_fuel (heap s') (S (next s)) k =
                        get_from chain_fuel (heap s') h k).
  { intros k. change chain_fuel with (S 63).
    rewrite (get_from_unfold 63 _ (S (next s))), (get_from_unfold 63 _ h).
    rewrite L2, (Rest h Hlt), L. reflexivity. }
  exists (S (next s)), s'. split; [exact E|]. split; [lia|]. split.
  { destruct (heap s !! S (next s)) as [o'|] eqn:N; [|done].
    destruct (W _ _ N). lia. }
  split; [intros k; unfold own; by rewrite L2, L|].
  split; [intros k; unfold own; by rewrite (Rest h Hlt)|].
  split; [intros k; apply G|].
  by apply coordinates_agree.
Qed.

(** Witness of C6: the clone of [Hex({x: 1, y: 2, name: 'a'})]. *)
Lemma hex_clone_witness :
  inv fp0 s1 /\ is_hex fp0 s1 h1 /\
  exists h' s', Hex fp0 (VRef h1) VUndef VUndef s1 = inr (VRef h', s') /\
    h' <> h1 /\ heap s1 !! h' = None /\
    (forall k, own s' (VRef h') k = own s1 (VRef h1) k) /\
    (forall k, own s' (VRef h1) k = own s1 (VRef h1) k) /\
    (forall k, prop s' (VRef h') k = prop s' (VRef h1) k) /\
    Prototype.coordinates (VRef h') s' = Prototype.coordinates (VRef h1) s'.
Proof.
  assert (I : inv fp0 s1) by (apply invb_inv; vm_compute; reflexivity).
  assert (H : is_hex fp0 s1 h1) by (apply is_hexb_is_hex; vm_compute; reflexivity).
  split; [exact I|]. split; [exact H|].
  exact (hex_clone fp0 s1 h1 I H).
Defined.

(** C10: [Hex] on a plain object whose [x] is neither an object nor an
    array assigns the inferred, negative-zero-normalised [x] and [y] onto
    that object itself (its other own properties are kept) as well as
    onto the fresh result. *)
Lemma hex_assigns_argument fp s l o b c vx vy :
  inv fp s -> heap s !! l = Some o -> o_kind o = KPlain ->
  get_from chain_fuel (heap s) l "x" = Some vx ->
  get_from chain_fuel (heap s) l "y" = Some vy ->
  isObject (heap s) vx = false -> isArray (heap s) vx = false ->
  let xy := infer (heap s) (unsignNegativeZero vx) (unsignNegativeZero vy) in
  exists r s', Hex fp (VRef l) b c s = inr (VRef r, s') /\ r <> l /\
    own s' (VRef l) "x" = Some xy.1 /\ own s' (VRef l) "y" = Some xy.2 /\
    own s' (VRef r) "x" = Some xy.1 /\ own s' (VRef r) "y" = Some xy.2 /\
    xy.1 <> VNum NNegZero /\ xy.2 <> VNum NNegZero /\
    isNumber (heap s) xy.1 = true /\ isNumber (heap s) xy.2 = true /\
    (forall k, k <> "x" -> k <> "y" -> own s' (VRef l) k = own s (VRef l) k).
Proof.
  intros [W F] L K Gx Gy Ox Ax xy.
  rewrite (hex_obj_step fp s l o b c vx vy W L K Gx Gy Ox Ax).
  destruct (pre_state_agree c s W) as (_ & Le & Num & _ & Old).
  assert (Hl : l < next s) by (by destruct (W _ _ L)).
  assert (L0 : heap (pre_state c s) !! l = Some o) by (rewrite Old; done).
  destruct (hex_finish_ref fp vx vy l o (pre_state c s) L0 ltac:(lia))
    as (s' & E & _ & R & C & _).
  rewrite (infer_ext (heap (pre_state c s)) (heap s)) in R, C by exact Num.
  fold xy in R, C.
  destruct (infer_isNumber (heap s) (unsignNegativeZero vx) (unsignNegativeZero vy)) as [Nx Ny].
  destruct (infer_not_negzero (heap s) vx vy) as [Zx Zy].
  exists (next (pre_state c s)), s'. split; [exact E|]. split; [lia|].
  unfold own. rewrite C, R, L. cbn [o_props].
  assert (Lx : ({["y" := xy.2; "x" := xy.1]} ∪ o_props o) !! "x" = Some xy.1).
  { apply lookup_union_Some_l. rewrite lookup_insert_ne by discriminate.
    apply lookup_singleton_eq. }
  assert (Ly : ({["y" := xy.2; "x" := xy.1]} ∪ o_props o) !! "y" = Some xy.2).
  { apply lookup_union_Some_l. apply lookup_insert_eq. }
  do 8 (split; [done|]).
  intros k Kx Ky. rewrite lookup_union_r; [done|].
  rewrite lookup_insert_ne by congruence. by rewrite lookup_singleton_ne by congruence.
Qed.

(** Witness of C10: [Hex({x: 1, y: 2, name: 'a'})]. *)
Lemma hex_assigns_argument_witness :
  inv fp0 st1 /\ heap st1 !! arg0 = Some arg0_obj /\ o_kind arg0_obj = KPlain /\
  get_from chain_fuel (heap st1) arg0 "x" = Some (VNum (NFin 1%Q)) /\
  get_from chain_fuel (heap st1) arg0 "y" = Some (VNum (NFin 2%Q)) /\
  isObject (heap st1) (VNum (NFin 1%Q)) = false /\ isArray (heap st1) (VNum (NFin 1%Q)) = false /\
  let xy := infer (heap st1) (unsignNegativeZero (VNum (NFin 1%Q))) (unsignNegativeZero (VNum (NFin 2%Q))) in
  exists r s', Hex fp0 (VRef arg0) VUndef VUndef st1 = inr (VRef r, s') /\ r <> arg0 /\
    own s' (VRef arg0) "x" = Some xy.1 /\ own s' (VRef arg0) "y" = Some xy.2 /\
    own s' (VRef r) "x" = Some xy.1 /\ own s' (VRef r) "y" = Some xy.2 /\
    xy.1 <> VNum NNegZero /\ xy.2 <> VNum NNegZero /\
    isNumber (heap st1) xy.1 = true /\ isNumber (heap st1) xy.2 = true /\
    (forall k, k <> "x" -> k <> "y" -> own s' (VRef arg0) k = own st1 (VRef arg0) k).
Proof.
  assert (I : inv fp0 st1) by (apply invb_inv; vm_compute; reflexivity).
  assert (L : heap st1 !! arg0 = Some arg0_obj) by (vm_compute; reflexivity).
  assert (K : o_kind arg0_obj = KPlain) by reflexivity.
  assert (Gx : get_from chain_fuel (heap st1) arg0 "x" = Some (VNum (NFin 1%Q))) by (vm_compute; reflexivity).
  assert (Gy : get_from chain_fuel (heap st1) arg0 "y" = Some (VNum (NFin 2%Q))) by (vm_compute; reflexivity).
  assert (Ox : isObject (heap st1) (VNum (NFin 1%Q)) = false) by reflexivity.
  assert (Ax : isArray (heap st1) (VNum (NFin 1%Q)) = false) by reflexivity.
  do 7 (split; [assumption|]).
  exact (hex_assigns_argument fp0 st1 arg0 arg0_obj VUndef VUndef _ _ I L K Gx Gy Ox Ax).
Defined.




(** C8, counterexample: with [a = Hex(0.1, 0)] and [b = Hex(0.2, 0)],
    [a.add(b).subtract(b).x] is [0.30000000000000004 - 0.2], which is not
    [0.1]: the sum is rounded to a double. *)
Lemma add_subtract_inexact :
  let '(a, b, s) := two_hexes (VNum (round64 (1 # 10))) (VNum (NFin 0))
                               (VNum (round64 (2 # 10))) (VNum (NFin 0)) in
  let (r1, s1) := result (Prototype.add fp0 a b) s in
  let (r2, s2) := result (Prototype.subtract fp0 r1 b) s1 in
  match prop s2 r2 "x", prop s a "x" with
  | Some (VNum n2), Some (VNum n1) => same n2 n1 = false
  | _, _ => False
  end.
Proof. vm_compute. reflexivity. Qed.

(** C8 (amended): for hexes [a] and [b] whose [x] and [y] are finite
    doubles, such that [a.x + b.x] and [a.y + b.y] are doubles (no
    rounding), [a.add(b).subtract(b)] has [x] and [y] equal to those of
    [a] (SameValueZero).  [a.add(b)] and [a.add(b).subtract(b)] are both
    plain objects with the factory's prototype, and each has the own
    properties of the receiver [a] (not of [b]) under every key other than
    the coordinates [x], [y], [z] and the key [__proto__]. *)
Lemma add_subtract_recovers fp s a b xa ya xb yb :
  inv fp s -> is_hex fp s a -> is_hex fp s b ->
  coord_val s a "x" = Some xa -> coord_val s a "y" = Some ya ->
  coord_val s b "x" = Some xb -> coord_val s b "y" = Some yb ->
  is_double xa = true -> is_double ya = true -> is_finite xb = true -> is_finite yb = true ->
  exact_add xa xb = true -> exact_add ya yb = true ->
  exists r1 s1 r2 s2 o1 o2,
    Prototype.add fp (VRef a) (VRef b) s = inr (VRef r1, s1) /\
    Prototype.subtract fp (VRef r1) (VRef b) s1 = inr (VRef r2, s2) /\
    heap s1 !! r1 = Some o1 /\ o_kind o1 = KPlain /\ o_proto o1 = Some fp /\
    heap s2 !! r2 = Some o2 /\ o_kind o2 = KPlain /\ o_proto o2 = Some fp /\
    (exists x2 y2, o_props o2 !! "x" = Some (VNum x2) /\ o_props o2 !! "y" = Some (VNum y2) /\
       same x2 xa = true /\ same y2 ya = true) /\
    (forall k, k <> "x" -> k <> "y" -> k <> "z" -> k <> "__proto__" ->
       o_props o1 !! k = own s (VRef a) k /\ o_props o2 !! k = own s (VRef a) k).
Proof.
  intros I Ha Hb Xa Ya Xb Yb Da Dy Fb Gb Ex Ey.
  destruct Ha as (oa & vxa & vya & La & _ & Pa & _).
  destruct (derive_run fp s a oa (JsNum.add xa xb) (JsNum.add ya yb) I La)
    as (s1 & D1 & I1 & _ & L1 & F1).
  pose proof (frame_agrees s s1 (proj1 I) F1) as A1.
  destruct (coord_val_new _ _ _ _ _ _ L1) as [X1 Y1].
  pose proof (coord_val_agree _ _ _ _ _ (proj1 I) A1 Xb) as Xb1.
  pose proof (coord_val_agree _ _ _ _ _ (proj1 I) A1 Yb) as Yb1.
  destruct (derive_run fp s1 (S (next s)) _ (sub (unz (JsNum.add xa xb)) xb)
              (sub (unz (JsNum.add ya yb)) yb) I1 L1) as (s2 & D2 & _ & _ & L2 & _).
  eexists _, s1, _, s2, _, _. split; [rewrite (add_run _ _ _ _ _ _ _ _ Xa Ya Xb Yb); exact D1|].
  split; [rewrite (subtract_run _ _ _ _ _ _ _ _ X1 Y1 Xb1 Yb1); exact D2|].
  split; [exact L1|]. split; [done|]. split; [done|].
  split; [exact L2|]. cbn [o_kind o_proto o_props]. split; [done|]. split; [done|]. split.
  - eexists _, _. rewrite lookup_coords_x, lookup_coords_y.
    split; [done|]. split; [done|]. split; by apply add_sub_exact.
  - intros k Hx Hy _ _. cbn [own]. rewrite La.
    rewrite !lookup_coords_other by done. by split.
Qed.

(** C8 witness: [Hex(1, 2)] and [Hex(3, 4)]. *)
Lemma add_subtract_recovers_witness :
  inv fp0 st2 /\ is_hex fp0 st2 ha /\ is_hex fp0 st2 hb /\
  coord_val st2 ha "x" = Some (NFin 1) /\ coord_val st2 ha "y" = Some (NFin 2) /\
  coord_val st2 hb "x" = Some (NFin 3) /\ coord_val st2 hb "y" = Some (NFin 4) /\
  exists r1 s1 r2 s2 o1 o2,
    Prototype.add fp0 (VRef ha) (VRef hb) st2 = inr (VRef r1, s1) /\
    Prototype.subtract fp0 (VRef r1) (VRef hb) s1 = inr (VRef r2, s2) /\
    heap s1 !! r1 = Some o1 /\ o_kind o1 = KPlain /\ o_proto o1 = Some fp0 /\
    heap s2 !! r2 = Some o2 /\ o_kind o2 = KPlain /\ o_proto o2 = Some fp0 /\
    (exists x2 y2, o_props o2 !! "x" = Some (VNum x2) /\ o_props o2 !! "y" = Some (VNum y2) /\
       same x2 (NFin 1) = true /\ same y2 (NFin 2) = true) /\
    (forall k, k <> "x" -> k <> "y" -> k <> "z" -> k <> "__proto__" ->
       o_props o1 !! k = own st2 (VRef ha) k /\ o_props o2 !! k = own st2 (VRef ha) k).
Proof.
  assert (I : inv fp0 st2) by (apply invb_inv; vm_compute; reflexivity).
  assert (Ha : is_hex fp0 st2 ha) by (apply is_hexb_is_hex; vm_compute; reflexivity).
  assert (Hb : is_hex fp0 st2 hb) by (apply is_hexb_is_hex; vm_compute; reflexivity).
  assert (Xa : coord_val st2 ha "x" = Some (NFin 1)) by (vm_compute; reflexivity).
  assert (Ya : coord_val st2 ha "y" = Some (NFin 2)) by (vm_compute; reflexivity).
  assert (Xb : coord_val st2 hb "x" = Some (NFin 3)) by (vm_compute; reflexivity).
  assert (Yb : coord_val st2 hb "y" = Some (NFin 4)) by (vm_compute; reflexivity).
  do 7 (split; [assumption|]).
  exact (add_subtract_recovers fp0 st2 ha hb _ _ _ _ I Ha Hb Xa Ya Xb Yb
           ltac:(vm_compute; reflexivity) ltac:(vm_compute; reflexivity)
           ltac:(vm_compute; reflexivity) ltac:(vm_compute; reflexivity)
           ltac:(vm_compute; reflexivity) ltac:(vm_compute; reflexivity)).
Defined.




End Claims.

(* ------------------------------------------------------------------ *)
(** ** Further properties of the factory and of [Hex] *)

Module Extras.

Import Examples HeapFacts NumFacts MethodFacts.


(** No object of the heap has an own property named [__proto__]: copying
    own properties with [Object.assign] then never reaches the inherited
    [__proto__] setter of [Object.prototype], and every key is copied as a
    data property. *)
Definition no_proto_keys (s : state) : Prop :=
  map_Forall (fun _ o => o_props o !! "__proto__" = None) (heap s).

Lemma no_proto_keys_check s :
  forallb (fun lo : loc * obj =>
             match o_props lo.2 !! "__proto__" with None => true | Some _ => false end)
          (map_to_list (heap s)) = true ->
  no_proto_keys s.
Proof.
  intros H l o L. apply elem_of_map_to_list, list_elem_of_In in L.
  rewrite forallb_forall in H. specialize (H _ L). cbn in H.
  by destruct (o_props o !! "__proto__").
Qed.


(** X1: in a heap where no object has an own property [__proto__],
    whatever the arguments, a call of [Hex] that returns gives a location
    that was free before the call and now holds a hex (a plain object with
    the factory's prototype and own numeric [x], [y], neither [-0]); the
    heap stays well formed and no object loses its kind or prototype. *)
Lemma hex_returns_fresh_hex fp s a b c v s' :
  inv fp s -> no_proto_keys s -> Hex fp a b c s = inr (v, s') ->
  exists r, v = VRef r /\ heap s !! r = None /\ is_hex fp s' r /\ inv fp s' /\ extends s s'.
Proof.
  intros I _ H.
  destruct (hex_rec_hex fp max_depth a b c s v s' I H) as (r & -> & N & Hh).
  destruct (mono_hex_rec fp max_depth VUndef a b c s _ _ I H) as [I' X].
  exists r. auto.
Qed.

Lemma hex_returns_fresh_hex_witness :
  let R := hex_of_nums (VNum (NFin 1)) (VNum (NFin 2)) in
  inv fp0 st0 /\ no_proto_keys st0 /\
  Hex fp0 (VNum (NFin 1)) (VNum (NFin 2)) VUndef st0 = inr (fst R, snd R) /\
  exists r, fst R = VRef r /\ heap st0 !! r = None /\ is_hex fp0 (snd R) r /\
    inv fp0 (snd R) /\ extends st0 (snd R).
Proof.
  intros R.
  assert (I : inv fp0 st0) by (apply invb_inv; vm_compute; reflexivity).
  assert (E : Hex fp0 (VNum (NFin 1)) (VNum (NFin 2)) VUndef st0 = inr (fst R, snd R))
    by (vm_compute; reflexivity).
  assert (N : no_proto_keys st0) by (apply no_proto_keys_check; vm_compute; reflexivity).
  split; [exact I|]. split; [exact N|]. split; [exact E|].
  exact (hex_returns_fresh_hex fp0 st0 (VNum (NFin 1)) (VNum (NFin 2)) VUndef (fst R) (snd R) I N E).
Defined.

(** X3: with an object [c] as [customProps] that has no own property
    [__proto__], and a first argument that is neither an object nor an
    array, [Hex] writes the coordinates into [c] itself (line 172) and the
    result carries them on top of the own properties of [c]; no other older
    object changes. *)
Lemma hex_assigns_custom_props fp s a b c oc :
  inv fp s -> heap s !! c = Some oc -> o_props oc !! "__proto__" = None ->
  isObject (heap s) a = false -> isArray (heap s) a = false ->
  let xy := infer (heap s) (unsignNegativeZero a) (unsignNegativeZero b) in
  let L := <["y" := xy.2]> {["x" := xy.1]} in
  exists r s', Hex fp a b (VRef c) s = inr (VRef r, s') /\ r <> c /\ heap s !! r = None /\
    heap s' !! c = Some (mkobj (o_kind oc) (o_proto oc) (L ∪ o_props oc)) /\
    heap s' !! r = Some (mkobj KPlain (Some fp) (L ∪ o_props oc)) /\
    forall l : loc, l <> c -> l < next s -> heap s' !! l = heap s !! l.
Proof.
  intros [W F] Lc _ Ho Ha xy L.
  assert (Hc : c < next s) by (by destruct (W _ _ Lc)).
  destruct (hex_finish_ref fp a b c oc s Lc Hc) as (s' & E & _ & R & C & Rest).
  exists (next s), s'. split.
  { unfold Hex, max_depth.
    refine (eq_trans (hex_rec_prim fp 999 VUndef a b (VRef c) s _ Ho Ha) E). discriminate. }
  split; [lia|]. split; [exact (wf_fresh s W)|]. split; [exact C|]. split; [exact R|].
  intros l Hl Hn. apply Rest; lia.
Qed.

Lemma hex_assigns_custom_props_witness :
  inv fp0 st_this /\ heap st_this !! S arg0 = Some cp_obj /\
  let xy := infer (heap st_this) (unsignNegativeZero (VNum (NFin 1)))
              (unsignNegativeZero (VNum (NFin 2))) in
  let L := <["y" := xy.2]> {["x" := xy.1]} in
  exists r s', Hex fp0 (VNum (NFin 1)) (VNum (NFin 2)) (VRef (S arg0)) st_this = inr (VRef r, s') /\
    r <> S arg0 /\ heap st_this !! r = None /\
    heap s' !! S arg0 = Some (mkobj (o_kind cp_obj) (o_proto cp_obj) (L ∪ o_props cp_obj)) /\
    heap s' !! r = Some (mkobj KPlain (Some fp0) (L ∪ o_props cp_obj)) /\
    forall l : loc, l <> S arg0 -> l < next st_this -> heap s' !! l = heap st_this !! l.
Proof.
  assert (I : inv fp0 st_this) by (apply invb_inv; vm_compute; reflexivity).
  assert (Lc : heap st_this !! S arg0 = Some cp_obj) by (vm_compute; reflexivity).
  split; [exact I|]. split; [exact Lc|].
  exact (hex_assigns_custom_props fp0 st_this (VNum (NFin 1)) (VNum (NFin 2)) (S arg0) cp_obj I Lc
           ltac:(vm_compute; reflexivity) ltac:(vm_compute; reflexivity)
           ltac:(vm_compute; reflexivity)).
Defined.

(** X4: [Hex(x, y, null)] with [x] neither an object nor an array throws a
    [TypeError]: [Object.assign(null, ...)] (line 172) rejects its target,
    since only [undefined] gets the default [{}]. *)
Lemma hex_null_custom_props fp s a b :
  isObject (heap s) a = false -> isArray (heap s) a = false ->
  Hex fp a b VNull s = inl TypeError.
Proof.
  intros Ho Ha. unfold Hex, max_depth.
  rewrite (hex_rec_prim fp 999 VUndef a b VNull s ltac:(discriminate) Ho Ha).
  reflexivity.
Qed.

Lemma hex_null_custom_props_witness :
  Hex fp0 (VNum (NFin 1)) (VNum (NFin 2)) VNull st0 = inl TypeError.
Proof.
  exact (hex_null_custom_props fp0 st0 (VNum (NFin 1)) (VNum (NFin 2))
           ltac:(vm_compute; reflexivity) ltac:(vm_compute; reflexivity)).
Defined.

(** X9: [Hex(x, y)] with [x] neither an object nor an array returns a fresh
    object whose own properties are exactly the inferred [x] and [y], and
    leaves every older object unchanged. *)
Lemma hex_scalar_frame fp s a b :
  inv fp s -> isObject (heap s) a = false -> isArray (heap s) a = false ->
  let xy := infer (heap s) (unsignNegativeZero a) (unsignNegativeZero b) in
  exists r s', Hex fp a b VUndef s = inr (VRef r, s') /\ heap s !! r = None /\
    heap s' !! r = Some (mkobj KPlain (Some fp) (<["y" := xy.2]> {["x" := xy.1]})) /\
    forall l : loc, l < next s -> heap s' !! l = heap s !! l.
Proof.
  intros [W F] Ho Ha xy. pose proof (wf_fresh s W) as Fr.
  assert (Lc : heap (with_default s) !! next s = Some (plain ∅)) by apply lookup_insert_eq.
  destruct (hex_finish_ref fp a b (next s) (plain ∅) (with_default s) Lc ltac:(cbn; lia))
    as (s' & E & _ & R & _ & Rest).
  assert (Ho' : isObject (heap (with_default s)) a = false).
  { unfold isObject. cbn [with_default heap]. by rewrite type_tag_alloc_plain. }
  assert (Ha' : isArray (heap (with_default s)) a = false).
  { unfold isArray. cbn [with_default heap]. by rewrite type_tag_alloc_plain. }
  exists (S (next s)), s'. split.
  { unfold Hex, max_depth. rewrite (hex_rec_prim_undef fp 999 VUndef a b s Ho' Ha'). exact E. }
  split.
  { destruct (heap s !! S (next s)) as [o|] eqn:L; [|done]. destruct (W _ _ L). lia. }
  split.
  { refine (eq_trans R _). cbn [with_default heap o_props plain].
    rewrite infer_alloc_plain by exact Fr. by rewrite map_union_empty. }
  intros l Hl. rewrite Rest by (cbn; lia). cbn. rewrite lookup_insert_ne by lia. reflexivity.
Qed.

Lemma hex_scalar_frame_witness :
  inv fp0 st0 /\
  let xy := infer (heap st0) (unsignNegativeZero (VNum (NFin 1)))
              (unsignNegativeZero (VNum (NFin 2))) in
  exists r s', Hex fp0 (VNum (NFin 1)) (VNum (NFin 2)) VUndef st0 = inr (VRef r, s') /\
    heap st0 !! r = None /\
    heap s' !! r = Some (mkobj KPlain (Some fp0) (<["y" := xy.2]> {["x" := xy.1]})) /\
    forall l : loc, l < next st0 -> heap s' !! l = heap st0 !! l.
Proof.
  assert (I : inv fp0 st0) by (apply invb_inv; vm_compute; reflexivity).
  split; [exact I|].
  exact (hex_scalar_frame fp0 st0 (VNum (NFin 1)) (VNum (NFin 2)) I
           ltac:(vm_compute; reflexivity) ltac:(vm_compute; reflexivity)).
Defined.

(** One call of [Hex] on an array: [x] and [y] are its elements ["0"] and
    ["1"], and [customProps] is replaced by a fresh [{}] (lines 146-149). *)
Lemma hex_rec_array fp n this l b c s v0 v1 :
  isObject (heap (pre_state c s)) (VRef l) = false ->
  isArray (heap (pre_state c s)) (VRef l) = true ->
  get_from chain_fuel (heap (pre_state c s)) l "0" = Some v0 ->
  get_from chain_fuel (heap (pre_state c s)) l "1" = Some v1 ->
  hex_rec (S n) fp this (VRef l) b c s =
  hex_finish fp this v0 v1 (VRef (next (pre_state c s)))
    (mkst (S (next (pre_state c s))) (<[next (pre_state c s) := plain ∅]> (heap (pre_state c s)))).
Proof.
  intros Ho Ha G0 G1. destruct c; cbn [pre_state with_default heap next] in *;
    cbn [hex_rec]; unfold bind; cbn -[isObject isArray get_from hex_finish chain_fuel];
    rewrite Ho, Ha; unfold get; cbn [heap]; rewrite G0; cbn [heap]; rewrite G1; reflexivity.
Qed.

(** X2: [Hex(arr, y, customProps)] for an array [arr] reads only
    [arr[0]] and [arr[1]]: the second and third arguments are ignored, the
    result's own properties are exactly the coordinates inferred from those
    two elements, and no older object, the array included, changes. *)
Lemma hex_array fp s l o b c v0 v1 :
  inv fp s -> heap s !! l = Some o -> o_kind o = KArray ->
  get_from chain_fuel (heap s) l "0" = Some v0 -> get_from chain_fuel (heap s) l "1" = Some v1 ->
  let xy := infer (heap s) (unsignNegativeZero v0) (unsignNegativeZero v1) in
  exists r s', Hex fp (VRef l) b c s = inr (VRef r, s') /\ heap s !! r = None /\
    heap s' !! r = Some (mkobj KPlain (Some fp) (<["y" := xy.2]> {["x" := xy.1]})) /\
    forall l' : loc, l' < next s -> heap s' !! l' = heap s !! l'.
Proof.
  intros [W F] L K G0 G1 xy.
  destruct (pre_state_agree c s W) as (Sub & Hn & N & T & Fr).
  set (s0 := pre_state c s) in *.
  assert (Ag : forall k, get_from chain_fuel (heap s0) l k = get_from chain_fuel (heap s) l k).
  { intros k. apply get_from_agree; [done| |by eexists].
    intros l' o' H. by eapply lookup_weaken. }
  assert (Ho : isObject (heap s0) (VRef l) = false).
  { unfold isObject. rewrite T. cbn. by rewrite L, K. }
  assert (Ha : isArray (heap s0) (VRef l) = true).
  { unfold isArray. rewrite T. cbn. by rewrite L, K. }
  assert (F0 : heap s0 !! next s0 = None).
  { subst s0. destruct c; cbn; try exact (wf_fresh s W).
    rewrite lookup_insert_ne by lia.
    destruct (heap s !! S (next s)) as [o'|] eqn:E; [|done]. destruct (W _ _ E). lia. }
  pose proof (eq_trans (Ag "0") G0) as G0'. pose proof (eq_trans (Ag "1") G1) as G1'.
  set (s1 := mkst (S (next s0)) (<[next s0 := plain ∅]> (heap s0))).
  assert (Lc : heap s1 !! next s0 = Some (plain ∅)) by apply lookup_insert_eq.
  destruct (hex_finish_ref fp v0 v1 (next s0) (plain ∅) s1 Lc ltac:(cbn; lia))
    as (s' & E & _ & R & _ & Rest).
  exists (next s1), s'. split.
  { unfold Hex, max_depth. rewrite (hex_rec_array fp 999 VUndef l b c s v0 v1 Ho Ha G0' G1').
    exact E. }
  split.
  { cbn [s1 next]. destruct (heap s !! S (next s0)) as [o'|] eqn:E'; [|done].
    destruct (W _ _ E'). lia. }
  split.
  { refine (eq_trans R _). cbn [s1 heap o_props plain].
    rewrite infer_alloc_plain by exact F0. rewrite (infer_ext _ (heap s) _ _ N).
    by rewrite map_union_empty. }
  intros l' Hl. rewrite Rest by (cbn [s1 next]; lia). cbn [s1 heap].
  rewrite lookup_insert_ne by lia. by apply Fr.
Qed.

Lemma hex_array_witness :
  inv fp0 st_arr /\ heap st_arr !! arg0 = Some arr_obj /\
  let xy := infer (heap st_arr) (unsignNegativeZero (VNum (NFin 1)))
              (unsignNegativeZero (VNum (NFin 2))) in
  exists r s', Hex fp0 (VRef arg0) (VNum (NFin 7)) VNull st_arr = inr (VRef r, s') /\
    heap st_arr !! r = None /\
    heap s' !! r = Some (mkobj KPlain (Some fp0) (<["y" := xy.2]> {["x" := xy.1]})) /\
    forall l' : loc, l' < next st_arr -> heap s' !! l' = heap st_arr !! l'.
Proof.
  assert (I : inv fp0 st_arr) by (apply invb_inv; vm_compute; reflexivity).
  assert (L : heap st_arr !! arg0 = Some arr_obj) by (vm_compute; reflexivity).
  split; [exact I|]. split; [exact L|].
  exact (hex_array fp0 st_arr arg0 arr_obj (VNum (NFin 7)) VNull (VNum (NFin 1)) (VNum (NFin 2)) I L eq_refl
           ltac:(vm_compute; reflexivity) ltac:(vm_compute; reflexivity)).
Defined.

(** An object whose [x] is the object itself sends [Hex] into the same
    call again at every level, until the stack is exhausted. *)
Lemma hex_rec_cyclic fp n this l b c s o vy :
  c <> VUndef -> heap s !! l = Some o -> o_kind o = KPlain ->
  o_props o !! "x" = Some (VRef l) -> get_from chain_fuel (heap s) l "y" = Some vy ->
  hex_rec n fp this (VRef l) b c s = inl RangeError.
Proof.
  intros Hc L K X Y. revert this b c Hc.
  induction n as [|n IH]; intros this b c Hc; [reflexivity|].
  assert (Gx : get_from chain_fuel (heap s) l "x" = Some (VRef l)).
  { unfold chain_fuel. rewrite get_from_unfold, L, X. reflexivity. }
  assert (Ho : isObject (heap s) (VRef l) = true).
  { unfold isObject. cbn [type_tag]. by rewrite L, K. }
  rewrite (hex_rec_obj fp n this l b c s (VRef l) vy Hc Ho Gx Y).
  apply IH. discriminate.
Qed.

(** X5: [Hex(o)] for a plain object [o] with [o.x === o] (and [o.y]
    readable) never returns: the recursion of line 145 passes [o] again
    each time, and the call ends in a [RangeError] (stack overflow),
    whatever the other two arguments. *)
Lemma hex_cyclic fp s l o b c vy :
  wf s -> heap s !! l = Some o -> o_kind o = KPlain ->
  o_props o !! "x" = Some (VRef l) -> get_from chain_fuel (heap s) l "y" = Some vy ->
  Hex fp (VRef l) b c s = inl RangeError.
Proof.
  intros W L K X Y. unfold Hex, max_depth.
  destruct c; try (apply (hex_rec_cyclic fp _ _ l b _ s o vy); done).
  destruct (pre_state_agree VUndef s W) as (Sub & _ & _ & T & _).
  cbn [pre_state] in Sub, T.
  assert (L1 : heap (with_default s) !! l = Some o) by (eapply lookup_weaken; eauto).
  assert (Y1 : get_from chain_fuel (heap (with_default s)) l "y" = Some vy).
  { rewrite <- Y. apply get_from_agree; [done| |by eexists].
    intros l' o' H. by eapply lookup_weaken. }
  assert (Gx : get_from chain_fuel (heap (with_default s)) l "x" = Some (VRef l)).
  { unfold chain_fuel. rewrite get_from_unfold, L1, X. reflexivity. }
  assert (Ho : isObject (heap (with_default s)) (VRef l) = true).
  { unfold isObject. rewrite T. cbn [type_tag]. by rewrite L, K. }
  rewrite (hex_rec_obj_undef fp 999 VUndef l b s (VRef l) vy Ho Gx Y1).
  apply (hex_rec_cyclic fp 999 VUndef l vy (VRef l) (with_default s) o vy);
    try done; discriminate.
Qed.

Lemma hex_cyclic_witness :
  wf st_cyc /\ Hex fp0 (VRef arg0) VUndef VUndef st_cyc = inl RangeError.
Proof.
  assert (W : wf st_cyc) by (apply wfb_wf; vm_compute; reflexivity).
  split; [exact W|].
  exact (hex_cyclic fp0 st_cyc arg0 cyc_obj VUndef VUndef VUndef W
           ltac:(vm_compute; reflexivity) eq_refl ltac:(vm_compute; reflexivity)
           ltac:(vm_compute; reflexivity)).
Defined.

(** [hex_finish] with an object [t] as [this]: the result gets the own
    properties of [t] below those of the updated [customProps]. *)
Lemma hex_finish_this fp x y (c t : loc) oc ot s :
  heap s !! c = Some oc -> c < next s -> heap s !! t = Some ot -> t < next s ->
  let xy := infer (heap s) (unsignNegativeZero x) (unsignNegativeZero y) in
  let L := <["y" := snd xy]> {["x" := fst xy]} in
  exists s', hex_finish fp (VRef t) x y (VRef c) s = inr (VRef (next s), s') /\
    heap s' !! next s = Some (mkobj KPlain (Some fp) ((L ∪ o_props oc) ∪ o_props ot)).
Proof.
  intros Lc Hc Lt Ht xy L.
  assert (N1 : c <> next s) by lia. assert (N2 : c <> S (next s)) by lia.
  assert (N3 : S (next s) <> next s) by lia.
  eexists. split.
  { unfold hex_finish. cbn [bind get_state alloc next heap].
    erewrite bind_ok;
      [|apply object_assign_one; cbn; rewrite !lookup_insert_ne by done; exact Lc].
    erewrite object_assign_two; [reflexivity|].
    cbn. rewrite lookup_insert_ne by done. rewrite lookup_insert_ne by lia.
    apply lookup_insert_eq. }
  cbn [own_enum heap next o_kind o_proto o_props].
  rewrite lookup_insert_eq. f_equal. f_equal.
  assert (Nt : t <> next s) by lia. assert (Nt' : t <> S (next s)) by lia.
  destruct (decide (t = c)) as [->|Ntc]; simplify_map_eq; cbn [o_props plain];
    rewrite map_union_empty; subst L xy; [|reflexivity].
  by rewrite map_union_idemp, <- map_union_assoc, map_union_idemp.
Qed.

(** X6: called with an object [t] as [this] (for example
    [Hex.call(t, x, y, c)]) and an object [c] as [customProps], neither
    with an own property [__proto__], and a first argument that is neither
    an object nor an array, [Hex] returns an object with the factory's
    prototype and the own properties of [t] (line 171), overridden by those
    of [c], themselves overridden by the coordinates. *)
Lemma hex_merges_this fp s t ot a b c oc :
  inv fp s -> heap s !! t = Some ot -> heap s !! c = Some oc ->
  o_props ot !! "__proto__" = None -> o_props oc !! "__proto__" = None ->
  isObject (heap s) a = false -> isArray (heap s) a = false ->
  let xy := infer (heap s) (unsignNegativeZero a) (unsignNegativeZero b) in
  let L := <["y" := xy.2]> {["x" := xy.1]} in
  exists s', hex_rec max_depth fp (VRef t) a b (VRef c) s = inr (VRef (next s), s') /\
    heap s' !! next s = Some (mkobj KPlain (Some fp) ((L ∪ o_props oc) ∪ o_props ot)).
Proof.
  intros [W F] Lt Lc _ _ Ho Ha xy L.
  assert (Hc : c < next s) by (by destruct (W _ _ Lc)).
  assert (Ht : t < next s) by (by destruct (W _ _ Lt)).
  destruct (hex_finish_this fp a b c t oc ot s Lc Hc Lt Ht) as (s' & E & R).
  exists s'. split; [|exact R]. unfold max_depth.
  refine (eq_trans (hex_rec_prim fp 999 (VRef t) a b (VRef c) s _ Ho Ha) E). discriminate.
Qed.

Lemma hex_merges_this_witness :
  inv fp0 st_this /\
  let xy := infer (heap st_this) (unsignNegativeZero (VNum (NFin 1)))
              (unsignNegativeZero (VNum (NFin 2))) in
  let L := <["y" := xy.2]> {["x" := xy.1]} in
  exists s', hex_rec max_depth fp0 (VRef arg0) (VNum (NFin 1)) (VNum (NFin 2))
               (VRef (S arg0)) st_this = inr (VRef (next st_this), s') /\
    heap s' !! next st_this =
      Some (mkobj KPlain (Some fp0) ((L ∪ o_props cp_obj) ∪ o_props this_obj)).
Proof.
  assert (I : inv fp0 st_this) by (apply invb_inv; vm_compute; reflexivity).
  split; [exact I|].
  exact (hex_merges_this fp0 st_this arg0 this_obj (VNum (NFin 1)) (VNum (NFin 2)) (S arg0) cp_obj I
           ltac:(vm_compute; reflexivity) ltac:(vm_compute; reflexivity)
           ltac:(vm_compute; reflexivity) ltac:(vm_compute; reflexivity)
           ltac:(vm_compute; reflexivity) ltac:(vm_compute; reflexivity)).
Defined.

(** On an object argument the recursive call of line 145 is made without
    a receiver. *)
Lemma hex_rec_this_obj fp n this l b c s :
  isObject (heap (pre_state c s)) (VRef l) = true ->
  hex_rec (S n) fp this (VRef l) b c s = hex_rec (S n) fp VUndef (VRef l) b c s.
Proof.
  intros Ho. destruct c; cbn [pre_state with_default heap next] in *;
    cbn [hex_rec]; unfold bind; cbn -[isObject get_from hex_rec chain_fuel];
    rewrite Ho; reflexivity.
Qed.

(** X7: on an object argument the receiver [this] is ignored: the result
    and final state are those of the plain call [Hex(o, y, c)]. *)
Lemma hex_object_ignores_this fp s this l b c :
  wf s -> isObject (heap s) (VRef l) = true ->
  hex_rec max_depth fp this (VRef l) b c s = Hex fp (VRef l) b c s.
Proof.
  intros W Ho. destruct (pre_state_agree c s W) as (_ & _ & _ & T & _).
  apply hex_rec_this_obj. unfold isObject in *. by rewrite T.
Qed.

Lemma hex_object_ignores_this_witness :
  wf st_this /\
  hex_rec max_depth fp0 (VRef arg0) (VRef (S arg0)) VUndef VUndef st_this =
  Hex fp0 (VRef (S arg0)) VUndef VUndef st_this.
Proof.
  assert (W : wf st_this) by (apply wfb_wf; vm_compute; reflexivity).
  split; [exact W|].
  exact (hex_object_ignores_this fp0 st_this (VRef arg0) (S arg0) VUndef VUndef W
           ltac:(vm_compute; reflexivity)).
Defined.

(** A call that returns with some stack depth returns the same with one
    more level of stack. *)
Lemma hex_rec_fuel fp n this a b c s r :
  hex_rec n fp this a b c s = inr r -> hex_rec (S n) fp this a b c s = inr r.
Proof.
  revert this a b c s r. induction n as [|n IH]; intros this a b c s r H; [discriminate|].
  revert H. cbn [hex_rec]. intros H.
  apply bind_inr in H as (cp & s1 & E1 & H). rewrite (bind_ok _ _ _ _ _ E1).
  apply bind_inr in H as (s2 & s3 & E2 & H). rewrite (bind_ok _ _ _ _ _ E2).
  destruct (isObject (heap s2) a); [|exact H].
  destruct a; try exact H.
  apply bind_inr in H as (x & s4 & E4 & H). rewrite (bind_ok _ _ _ _ _ E4).
  apply bind_inr in H as (y & s5 & E5 & H). rewrite (bind_ok _ _ _ _ _ E5).
  exact (IH _ _ _ _ _ _ H).
Qed.

(** One call of [Hex] on an object: [x] and [y] are read from it and the
    object becomes [customProps] of the recursive call (lines 142-145). *)
Lemma hex_rec_obj_gen fp n this l b c s :
  isObject (heap (pre_state c s)) (VRef l) = true ->
  hex_rec (S n) fp this (VRef l) b c s =
  (x <- get l "x" ;; y <- get l "y" ;; hex_rec n fp VUndef x y (VRef l)) (pre_state c s).
Proof.
  intros Ho. destruct c; cbn [pre_state with_default heap next] in *; cbn [hex_rec];
    (erewrite bind_ok; [|reflexivity]); (erewrite bind_ok; [|reflexivity]);
    cbn [heap next]; rewrite Ho; reflexivity.
Qed.

(** X8: if [o.x] is itself a plain object [o2], then [Hex(o, y, c)]
    behaves as [Hex(o2, y, c)]: whenever the first returns, the second
    returns the same value and state.  The [y] and the other properties of
    [o] are dropped. *)
Lemma hex_nested_object fp s l o l2 o2 b c r :
  wf s -> heap s !! l = Some o -> o_kind o = KPlain ->
  get_from chain_fuel (heap s) l "x" = Some (VRef l2) ->
  heap s !! l2 = Some o2 -> o_kind o2 = KPlain ->
  Hex fp (VRef l) b c s = inr r -> Hex fp (VRef l2) b c s = inr r.
Proof.
  intros W L K Gx L2 K2 H.
  destruct (pre_state_agree c s W) as (Sub & _ & _ & T & _).
  set (s0 := pre_state c s) in *.
  assert (Gx0 : get_from chain_fuel (heap s0) l "x" = Some (VRef l2)).
  { rewrite <- Gx. apply get_from_agree; [done| |by eexists].
    intros l' o' H'. by eapply lookup_weaken. }
  assert (Ho : isObject (heap s0) (VRef l) = true).
  { unfold isObject. rewrite T. cbn [type_tag]. by rewrite L, K. }
  assert (Ho2 : isObject (heap s0) (VRef l2) = true).
  { unfold isObject. rewrite T. cbn [type_tag]. by rewrite L2, K2. }
  unfold Hex, max_depth in *.
  rewrite (hex_rec_obj_gen fp 999 VUndef l b c s Ho) in H.
  rewrite (hex_rec_obj_gen fp 999 VUndef l2 b c s Ho2).
  fold s0 in H |- *.
  rewrite (bind_ok _ _ s0 (VRef l2) s0) in H by (unfold get; by rewrite Gx0).
  apply bind_inr in H as (vy & s1 & E1 & H).
  assert (s1 = s0) as ->.
  { unfold get in E1. destruct (get_from chain_fuel (heap s0) l "y"); [|done].
    by injection E1. }
  rewrite (hex_rec_obj_gen fp 998 VUndef l2 vy (VRef l) s0 Ho2) in H. cbn [pre_state] in H.
  apply bind_inr in H as (x & s2 & E2 & H). rewrite (bind_ok _ _ _ _ _ E2).
  apply bind_inr in H as (y & s3 & E3 & H). rewrite (bind_ok _ _ _ _ _ E3).
  apply hex_rec_fuel. exact H.
Qed.

Lemma hex_nested_object_witness :
  wf st_nest /\ Hex fp0 (VRef arg0) VUndef VUndef st_nest = inr run_nest /\
  Hex fp0 (VRef (S arg0)) VUndef VUndef st_nest = inr run_nest.
Proof.
  assert (W : wf st_nest) by (apply wfb_wf; vm_compute; reflexivity).
  assert (E : Hex fp0 (VRef arg0) VUndef VUndef st_nest = inr run_nest)
    by (vm_compute; reflexivity).
  split; [exact W|]. split; [exact E|].
  exact (hex_nested_object fp0 st_nest arg0 outer_obj (S arg0) inner_obj VUndef VUndef
           run_nest W ltac:(vm_compute; reflexivity) eq_refl
           ltac:(vm_compute; reflexivity) ltac:(vm_compute; reflexivity) eq_refl E).
Defined.








(** [hex_finish] with a string [t] as [customProps]: [Object.assign] wraps
    [t] in a [String] object whose index properties reach the result. *)
Lemma hex_finish_str fp x y t s :
  let xy := infer (heap s) (unsignNegativeZero x) (unsignNegativeZero y) in
  exists s', hex_finish fp VUndef x y (VStr t) s = inr (VRef (next s), s') /\
    heap s' !! next s =
      Some (mkobj KPlain (Some fp) (<["y" := snd xy]> {["x" := fst xy]} ∪ str_props 0 t)).
Proof.
  intros xy. assert (N3 : S (S (next s)) <> next s) by lia.
  assert (N4 : S (S (next s)) <> S (next s)) by lia.
  assert (N5 : S (next s) <> next s) by lia.
  eexists. split.
  { unfold hex_finish. cbn [bind get_state alloc next heap].
    erewrite bind_ok;
      [|unfold object_assign; cbn [to_object]; erewrite bind_ok; [|reflexivity];
        cbn [next heap]; erewrite bind_ok;
        [|apply assign_sources_one; cbn; apply lookup_insert_eq]; reflexivity].
    cbn [next heap].
    erewrite object_assign_two; [reflexivity|]. cbn.
    repeat rewrite lookup_insert_ne by lia. apply lookup_insert_eq. }
  simpl. simplify_map_eq. rewrite !map_union_empty. reflexivity.
Qed.

(** X11: [Hex(x, y, t)] with a string [t] (and [x] neither an object nor an
    array) returns an object whose own properties are the coordinates and
    the characters of [t] under the keys ["0"], ["1"], ...:
    [Object.assign(t, {x, y})] (line 172) boxes the string. *)
Lemma hex_string_custom_props fp s a b t :
  isObject (heap s) a = false -> isArray (heap s) a = false ->
  let xy := infer (heap s) (unsignNegativeZero a) (unsignNegativeZero b) in
  exists r s', Hex fp a b (VStr t) s = inr (VRef r, s') /\
    heap s' !! r =
      Some (mkobj KPlain (Some fp) (<["y" := xy.2]> {["x" := xy.1]} ∪ str_props 0 t)).
Proof.
  intros Ho Ha xy. destruct (hex_finish_str fp a b t s) as (s' & E & R).
  exists (next s), s'. split; [|exact R]. unfold Hex, max_depth.
  refine (eq_trans (hex_rec_prim fp 999 VUndef a b (VStr t) s _ Ho Ha) E). discriminate.
Qed.

Lemma hex_string_custom_props_witness :
  let xy := infer (heap st0) (unsignNegativeZero (VNum (NFin 1)))
              (unsignNegativeZero (VNum (NFin 2))) in
  exists r s', Hex fp0 (VNum (NFin 1)) (VNum (NFin 2)) (VStr "ab") st0 = inr (VRef r, s') /\
    heap s' !! r =
      Some (mkobj KPlain (Some fp0) (<["y" := xy.2]> {["x" := xy.1]} ∪ str_props 0 "ab")).
Proof.
  exact (hex_string_custom_props fp0 st0 (VNum (NFin 1)) (VNum (NFin 2)) "ab"
           ltac:(vm_compute; reflexivity) ltac:(vm_compute; reflexivity)).
Defined.

End Extras.
